(** * Secure-MCP-Gateway core: policy engine, approval manager, orchestrator

    A shallow embedding of
      - packages/gateway-core/src/types.ts
      - packages/gateway-core/src/policy-engine.ts
      - packages/gateway-core/src/approval-manager.ts
      - packages/gateway-core/src/gateway.ts
      - the [IAuditLogger] interface of audit-logger.ts
    followed by the properties of the specification that concern them. *)

From Stdlib Require Import ZArith NArith String Ascii Bool.
From stdpp Require Import base option list gmap fin_maps.

Set Warnings "-register-all".
Local Open Scope N_scope.

(** ** JavaScript strings

    A JavaScript string is a sequence of UTF-16 code units.  Code units are
    kept as [N]; [js] turns a (Latin-1) literal into its code units. *)

Definition jsstring : Type := list N.

Definition js (s : string) : jsstring :=
  map N_of_ascii (list_ascii_of_string s).

(** [String.prototype.includes]: [needle] occurs in [hay]. *)
Fixpoint startsWith (hay needle : jsstring) : bool :=
  match needle, hay with
  | [], _ => true
  | _ :: _, [] => false
  | n :: needle', h :: hay' => (n =? h) && startsWith hay' needle'
  end.

Fixpoint includes (hay needle : jsstring) : bool :=
  startsWith hay needle ||
  match hay with
  | [] => false
  | _ :: hay' => includes hay' needle
  end.

(** Truthiness of an optional string ([undefined] and [''] are falsy). *)
Definition truthy (o : option jsstring) : bool :=
  match o with
  | Some (_ :: _) => true
  | _ => false
  end.

(** [a || b] on an optional string with a string fallback. *)
Definition orElse (o : option jsstring) (d : jsstring) : jsstring :=
  match o with
  | Some (c :: s) => c :: s
  | _ => d
  end.

(** ** The fragment of ECMAScript regular expressions that [matchesPattern]
    builds, with flag [i] and without flags [m], [s], [u]. *)

Module RegExp.

(** The characters of the class [[.*+?^${}()|[\]\\]]; they are also the
    SyntaxCharacters of the pattern grammar. *)
Definition syntaxCharacters : list N :=
  [46; 42; 43; 63; 94; 36; 123; 125; 40; 41; 124; 91; 93; 92].

Definition isSyntaxCharacter (c : N) : bool :=
  existsb (N.eqb c) syntaxCharacters.

(** LineTerminator: LF, CR, LS, PS. *)
Definition isLineTerminator (c : N) : bool :=
  (c =? 10) || (c =? 13) || (c =? 8232) || (c =? 8233).

Inductive Atom : Type :=
| PatternCharacter (c : N)
| Dot.

Inductive Term : Type :=
| AssertBegin                (* ^ *)
| AssertEnd                  (* $ *)
| TAtom (a : Atom)
| TStar (a : Atom).          (* a* , greedy *)

(** [new RegExp(source)]: [None] stands for a SyntaxError or for a pattern
    outside the fragment. *)
Fixpoint parse (s : jsstring) : option (list Term) :=
  match s with
  | [] => Some []
  | c :: s1 =>
    if c =? 94 then cons AssertBegin <$> parse s1
    else if c =? 36 then cons AssertEnd <$> parse s1
    else if c =? 92 then
      match s1 with
      | [] => None
      | e :: s2 =>
        if isSyntaxCharacter e then
          match s2 with
          | q :: s3 =>
            if q =? 42 then cons (TStar (PatternCharacter e)) <$> parse s3
            else cons (TAtom (PatternCharacter e)) <$> parse s2
          | [] => cons (TAtom (PatternCharacter e)) <$> parse s2
          end
        else None
      end
    else if isSyntaxCharacter c && negb (c =? 46) then None
    else
      let a := if c =? 46 then Dot else PatternCharacter c in
      match s1 with
      | q :: s2 =>
        if q =? 42 then cons (TStar a) <$> parse s2
        else cons (TAtom a) <$> parse s1
      | [] => cons (TAtom a) <$> parse s1
      end
  end.

Section Matcher.

(** The result of [String.prototype.toUpperCase] on a single code unit
    outside ASCII, when that result is again a single code unit (the
    code unit itself otherwise): the Unicode table of the runtime. *)
Variable unicodeUpper : N -> N.

Definition asciiUpper (c : N) : N :=
  if (97 <=? c) && (c <=? 122) then c - 32 else c.

(** Canonicalize (ch) of the specification, IgnoreCase being true. *)
Definition Canonicalize (ch : N) : N :=
  if ch <? 128 then asciiUpper ch
  else
    let cu := unicodeUpper ch in
    if cu <? 128 then ch else cu.

(** A character against an atom.  For [.] the specification asks for a
    character that is no line terminator and has the canonical form of
    [ch]; as no case mapping of Unicode yields or changes a line
    terminator, that is: [ch] is no line terminator. *)
Definition atomMatches (a : Atom) (ch : N) : bool :=
  match a with
  | PatternCharacter c => Canonicalize c =? Canonicalize ch
  | Dot => negb (isLineTerminator ch)
  end.

(** Backtracking matcher: [matchHere ts atStart input] tries [ts] at the
    current position; [atStart] tells whether that position is index 0. *)
Fixpoint matchHere (ts : list Term) (atStart : bool) (input : jsstring)
  : bool :=
  match ts with
  | [] => true
  | AssertBegin :: ts' => atStart && matchHere ts' atStart input
  | AssertEnd :: ts' =>
    match input with
    | [] => matchHere ts' atStart input
    | _ :: _ => false
    end
  | TAtom a :: ts' =>
    match input with
    | [] => false
    | ch :: input' => atomMatches a ch && matchHere ts' false input'
    end
  | TStar a :: ts' =>
    (fix star (atStart : bool) (input : jsstring) {struct input} : bool :=
       match input with
       | ch :: input' =>
         (atomMatches a ch && star false input')
         || matchHere ts' atStart input
       | [] => matchHere ts' atStart input
       end) atStart input
  end.

(** [RegExp.prototype.test] of a regular expression that is neither
    global nor sticky: every start index is tried, from 0. *)
Fixpoint search (ts : list Term) (atStart : bool) (input : jsstring)
  : bool :=
  matchHere ts atStart input ||
  match input with
  | [] => false
  | _ :: input' => search ts false input'
  end.

Definition test (ts : list Term) (input : jsstring) : bool :=
  search ts true input.

End Matcher.

End RegExp.

(** ** types.ts *)

(** Values of TypeScript type [unknown] (arguments, metadata, outputs). *)
Inductive JsValue : Type :=
| JsUndefined
| JsNull
| JsBool (b : bool)
| JsNumber (z : Z)
| JsString (s : jsstring)
| JsArray (items : list JsValue)
| JsObject (fields : list (jsstring * JsValue)).

(** A [Date] object: its time value in milliseconds, or NaN (Invalid Date). *)
Inductive Date : Type :=
| ValidDate (ms : Z)
| InvalidDate.

(** [new Date(v)] for an integral number [v] ([None] is NaN): TimeClip. *)
Definition newDate (v : option Z) : Date :=
  match v with
  | Some ms =>
    if (Z.abs ms <=? 8640000000000000)%Z then ValidDate ms else InvalidDate
  | None => InvalidDate
  end.

(** [a < b] on two dates: both are converted to numbers, NaN compares false. *)
Definition dateLt (a b : Date) : bool :=
  match a, b with
  | ValidDate x, ValidDate y => (x <? y)%Z
  | _, _ => false
  end.

Inductive OperationSeverity : Type := SAFE | LOW | MEDIUM | HIGH | CRITICAL.

Inductive CallerType : Type := human | agent | service.

Record CallerIdentity : Type := {
  caller_id : jsstring;
  caller_name : jsstring;
  caller_type : CallerType;
  caller_metadata : option JsValue
}.

Record ToolCallContext : Type := {
  ctx_callId : jsstring;
  ctx_tool : jsstring;
  ctx_action : jsstring;
  ctx_severity : OperationSeverity;
  ctx_caller : CallerIdentity;
  ctx_args : option JsValue;
  ctx_timestamp : Date;
  ctx_metadata : option JsValue
}.

Inductive PolicyEffect : Type := ALLOW | DENY | REVIEW.

Record PolicyDecision : Type := {
  dec_effect : PolicyEffect;
  dec_reason : jsstring;
  dec_rule : option jsstring;
  dec_approvalToken : option jsstring
}.

Record RuleMatch : Type := {
  match_tool : option jsstring;
  match_action : option jsstring;
  match_minSeverity : option OperationSeverity;
  match_callerType : option CallerType;
  match_custom : option (ToolCallContext -> bool)
}.

Record PolicyRule : Type := {
  rule_id : jsstring;
  rule_description : option jsstring;
  rule_match : RuleMatch;
  rule_effect : PolicyEffect;
  rule_reason : option jsstring
}.

Record PolicyConfig : Type := {
  rules : list PolicyRule;
  defaultEffect : PolicyEffect;
  defaultReason : option jsstring
}.

Inductive ApprovalStatus : Type := pending | approved | denied | expired.

Record PendingApproval : Type := {
  pa_token : jsstring;
  pa_context : ToolCallContext;
  pa_decision : PolicyDecision;
  pa_createdAt : Date;
  pa_expiresAt : option Date;
  pa_status : ApprovalStatus
}.

(** Objects live in a heap; [ApprovalResult.approval] is a reference. *)
Abbreviation ref := nat.

Record ApprovalResult : Type := {
  res_success : bool;
  res_approval : option ref;
  res_error : option jsstring
}.

#[global] Instance PolicyEffect_eq_dec : EqDecision PolicyEffect.
Proof. solve_decision. Defined.
#[global] Instance CallerType_eq_dec : EqDecision CallerType.
Proof. solve_decision. Defined.
#[global] Instance ApprovalStatus_eq_dec : EqDecision ApprovalStatus.
Proof. solve_decision. Defined.
#[global] Instance OperationSeverity_eq_dec : EqDecision OperationSeverity.
Proof. solve_decision. Defined.

(** ** uuid

    [uuidv4()] draws from a source of entropy; the source is a stream of the
    strings it will return. *)
Definition Rng : Type := nat -> jsstring.

Definition uuidv4 (g : Rng) : jsstring * Rng :=
  (g 0%nat, fun n => g (S n)).

(** ** policy-engine.ts *)

Definition SEVERITY_ORDER (s : OperationSeverity) : Z :=
  match s with
  | SAFE => 0
  | LOW => 1
  | MEDIUM => 2
  | HIGH => 3
  | CRITICAL => 4
  end%Z.

(** [pattern.split('*')] *)
Fixpoint split (sep : N) (s : jsstring) : list jsstring :=
  match s with
  | [] => [[]]
  | c :: s' =>
    if c =? sep then [] :: split sep s'
    else
      match split sep s' with
      | p :: ps => (c :: p) :: ps
      | [] => [[c]]
      end
  end.

(** [parts.join(sep)] *)
Fixpoint join (sep : jsstring) (parts : list jsstring) : jsstring :=
  match parts with
  | [] => []
  | [p] => p
  | p :: ps => p ++ sep ++ join sep ps
  end.

(** [part.replace(/[.*+?^${}()|[\]\\]/g, '\\$&')] *)
Definition escapePart (part : jsstring) : jsstring :=
  flat_map (fun c => if RegExp.isSyntaxCharacter c then [92; c] else [c]) part.

Definition regexSource (pattern : jsstring) : jsstring :=
  let regexPattern := join (js ".*") (map escapePart (split 42 pattern)) in
  [94] ++ regexPattern ++ [36].

Section PolicyEngine.

Variable unicodeUpper : N -> N.

(** [matchesPattern]; the constructor of [RegExp] never throws on
    [regexSource pattern] (lemma [regexSource_parses] below), so the
    [None] branch is dead. *)
Definition matchesPattern (value pattern : jsstring) : bool :=
  match RegExp.parse (regexSource pattern) with
  | Some regex => RegExp.test unicodeUpper regex value
  | None => false
  end.

Definition matchesRule (context : ToolCallContext) (rule : PolicyRule) : bool :=
  let m := rule_match rule in
  if match match_tool m with
     | Some (c :: p) => negb (matchesPattern (ctx_tool context) (c :: p))
     | _ => false
     end then false
  else if match match_action m with
     | Some (c :: p) => negb (matchesPattern (ctx_action context) (c :: p))
     | _ => false
     end then false
  else if match match_minSeverity m with
     | Some s => (SEVERITY_ORDER (ctx_severity context) <? SEVERITY_ORDER s)%Z
     | None => false
     end then false
  else if match match_callerType m with
     | Some k => negb (bool_decide (caller_type (ctx_caller context) = k))
     | None => false
     end then false
  else if match match_custom m with
     | Some f => negb (f context)
     | None => false
     end then false
  else true.

Definition getDefaultReason (effect : PolicyEffect) (rule : option PolicyRule)
  : jsstring :=
  let ruleDesc :=
    match rule with
    | Some r => js " (rule: " ++ rule_id r ++ js ")"
    | None => []
    end in
  match effect with
  | ALLOW => js "Operation allowed by policy" ++ ruleDesc
  | DENY => js "Operation denied by policy" ++ ruleDesc
  | REVIEW => js "Operation requires human approval" ++ ruleDesc
  end.

(** The decision built for a matched rule. *)
Definition ruleDecision (rule : PolicyRule) (g : Rng) : PolicyDecision * Rng :=
  let decision := {|
    dec_effect := rule_effect rule;
    dec_reason :=
      orElse (rule_reason rule) (getDefaultReason (rule_effect rule) (Some rule));
    dec_rule := Some (rule_id rule);
    dec_approvalToken := None |} in
  if bool_decide (rule_effect rule = REVIEW) then
    let '(token, g') := uuidv4 g in
    ({| dec_effect := dec_effect decision;
        dec_reason := dec_reason decision;
        dec_rule := dec_rule decision;
        dec_approvalToken := Some token |}, g')
  else (decision, g).

(** The decision built when no rule matched. *)
Definition defaultDecision (config : PolicyConfig) (g : Rng)
  : PolicyDecision * Rng :=
  let decision := {|
    dec_effect := defaultEffect config;
    dec_reason :=
      orElse (defaultReason config) (getDefaultReason (defaultEffect config) None);
    dec_rule := None;
    dec_approvalToken := None |} in
  if bool_decide (defaultEffect config = REVIEW) then
    let '(token, g') := uuidv4 g in
    ({| dec_effect := dec_effect decision;
        dec_reason := dec_reason decision;
        dec_rule := dec_rule decision;
        dec_approvalToken := Some token |}, g')
  else (decision, g).

(** The [for (const rule of this.config.rules)] loop of [evaluatePolicy]. *)
Fixpoint evaluateRules (config : PolicyConfig) (context : ToolCallContext)
  (rs : list PolicyRule) (g : Rng) : PolicyDecision * Rng :=
  match rs with
  | rule :: rs' =>
    if matchesRule context rule then ruleDecision rule g
    else evaluateRules config context rs' g
  | [] => defaultDecision config g
  end.

Definition evaluatePolicy (config : PolicyConfig) (context : ToolCallContext)
  (g : Rng) : PolicyDecision * Rng :=
  evaluateRules config context (rules config) g.

End PolicyEngine.

Definition createDefaultPolicy : PolicyConfig := {|
  rules := [
    {| rule_id := js "deny-critical-delete";
       rule_description := Some (js "Deny critical delete operations");
       rule_match := {| match_tool := None; match_action := Some (js "delete_*");
                        match_minSeverity := Some CRITICAL;
                        match_callerType := None; match_custom := None |};
       rule_effect := DENY;
       rule_reason := Some (js "Critical delete operations are not allowed") |};
    {| rule_id := js "review-high-risk";
       rule_description := Some (js "Require review for high-risk operations");
       rule_match := {| match_tool := None; match_action := None;
                        match_minSeverity := Some HIGH;
                        match_callerType := None; match_custom := None |};
       rule_effect := REVIEW;
       rule_reason := Some (js "High-risk operations require human approval") |};
    {| rule_id := js "review-medium-writes";
       rule_description := Some (js "Require review for medium-risk operations");
       rule_match := {| match_tool := None; match_action := None;
                        match_minSeverity := Some MEDIUM;
                        match_callerType := None; match_custom := None |};
       rule_effect := REVIEW;
       rule_reason := Some (js "Medium-risk operations require human approval") |};
    {| rule_id := js "allow-safe-reads";
       rule_description := Some (js "Allow safe read-only operations");
       rule_match := {| match_tool := None; match_action := None;
                        match_minSeverity := Some SAFE;
                        match_callerType := None; match_custom := None |};
       rule_effect := ALLOW;
       rule_reason := Some (js "Safe read-only operation") |} ];
  defaultEffect := REVIEW;
  defaultReason :=
    Some (js "Default policy requires review for unclassified operations")
|}.

(** ** approval-manager.ts *)

(** Completion of a call: it returns, or throws [new Error(message)], or
    throws a value that is not an [Error] (kept as its [String()] image). *)
Inductive Thrown : Type :=
| ThrownError (message : jsstring)
| ThrownOther (asString : jsstring).

Inductive Completion (A : Type) : Type :=
| Return (a : A)
| Throw (e : Thrown).

Arguments Return {A} a.
Arguments Throw {A} e.

(** [config?: ApprovalManagerConfig]: the key [defaultTTL] may be missing,
    or be there with the value [undefined]. *)
Record ApprovalManagerConfig : Type := {
  cfg_defaultTTL : option (option Z)
}.

(** The state of an [ApprovalManager]: the [Map] from token to approval
    object, the approval objects themselves, the merged configuration and
    the timers armed with [setTimeout] (delay and token). *)
Record ApprovalManager : Type := {
  pendingApprovals : gmap jsstring ref;
  heap : list PendingApproval;
  defaultTTL : option Z;
  timers : list (option Z * jsstring)
}.

(** [constructor(config?)]: [{ defaultTTL: 60 * 60 * 1000, ...config }]. *)
Definition newApprovalManager (config : option ApprovalManagerConfig)
  : ApprovalManager :=
  {| pendingApprovals := ∅;
     heap := [];
     defaultTTL :=
       match config with
       | Some {| cfg_defaultTTL := Some v |} => v
       | _ => Some (60 * 60 * 1000)%Z
       end;
     timers := [] |}.

(** Truthiness of an optional number (NaN is not modelled). *)
Definition truthyNumber (o : option Z) : bool :=
  match o with
  | Some z => negb (z =? 0)%Z
  | None => false
  end.

(** [Date.now() + x], where [undefined] makes the sum NaN. *)
Definition plusNow (now : Z) (x : option Z) : option Z :=
  match x with
  | Some z => Some (now + z)%Z
  | None => None
  end.

Definition statusString (s : ApprovalStatus) : jsstring :=
  match s with
  | pending => js "pending"
  | approved => js "approved"
  | denied => js "denied"
  | expired => js "expired"
  end.

Definition withStatus (a : PendingApproval) (s : ApprovalStatus)
  : PendingApproval :=
  {| pa_token := pa_token a; pa_context := pa_context a;
     pa_decision := pa_decision a; pa_createdAt := pa_createdAt a;
     pa_expiresAt := pa_expiresAt a; pa_status := s |}.

(** [approval.status = s] on the object at [l]. *)
Definition setStatus (m : ApprovalManager) (l : ref) (s : ApprovalStatus)
  : ApprovalManager :=
  match heap m !! l with
  | Some a =>
    {| pendingApprovals := pendingApprovals m;
       heap := <[l := withStatus a s]> (heap m);
       defaultTTL := defaultTTL m;
       timers := timers m |}
  | None => m
  end.

(** [createApproval(context, decision, ttl?)] at clock reading [now]; the
    new object is allocated at the end of the heap. *)
Definition createApproval (m : ApprovalManager) (context : ToolCallContext)
  (decision : PolicyDecision) (ttl : option Z) (now : Z)
  : Completion ref * ApprovalManager :=
  match dec_approvalToken decision with
  | Some (c :: t) =>
    let token := c :: t in
    let expiresAt :=
      if truthyNumber ttl then newDate (plusNow now ttl)
      else newDate (plusNow now (defaultTTL m)) in
    let approval := {|
      pa_token := token;
      pa_context := context;
      pa_decision := decision;
      pa_createdAt := ValidDate now;
      pa_expiresAt := Some expiresAt;
      pa_status := pending |} in
    let l := length (heap m) in
    (Return l,
     {| pendingApprovals := <[token := l]> (pendingApprovals m);
        heap := heap m ++ [approval];
        defaultTTL := defaultTTL m;
        timers :=
          timers m ++ [(if truthyNumber ttl then ttl else defaultTTL m, token)] |})
  | _ => (Throw (ThrownError (js "Cannot create approval without approval token")), m)
  end.

(** [getApproval(token)]: the object the token maps to. *)
Definition getApproval (m : ApprovalManager) (token : jsstring)
  : option PendingApproval :=
  l ← pendingApprovals m !! token; heap m !! l.

Definition isPending (m : ApprovalManager) (l : ref) : bool :=
  match heap m !! l with
  | Some a => bool_decide (pa_status a = pending)
  | None => false
  end.

(** [listPendingApprovals()]; the insertion order of the [Map] is not kept. *)
Definition listPendingApprovals (m : ApprovalManager) : list ref :=
  filter (fun l => isPending m l = true) (map_to_list (pendingApprovals m)).*2.

Definition failure (error : jsstring) : ApprovalResult :=
  {| res_success := false; res_approval := None; res_error := Some error |}.

Definition succeeded (l : ref) : ApprovalResult :=
  {| res_success := true; res_approval := Some l; res_error := None |}.

(** [grantApproval(token, approver)] at clock reading [now]. *)
Definition grantApproval (m : ApprovalManager) (token : jsstring)
  (approver : CallerIdentity) (now : Z) : ApprovalResult * ApprovalManager :=
  match pendingApprovals m !! token with
  | None => (failure (js "Approval token not found"), m)
  | Some l =>
    match heap m !! l with
    | None => (failure (js "Approval token not found"), m)
    | Some approval =>
      if negb (bool_decide (pa_status approval = pending)) then
        (failure (js "Approval is already " ++ statusString (pa_status approval)), m)
      else if match pa_expiresAt approval with
              | Some expiresAt => dateLt expiresAt (ValidDate now)
              | None => false
              end then
        (failure (js "Approval token has expired"), setStatus m l expired)
      else
        (succeeded l, setStatus m l approved)
    end
  end.

(** [denyApproval(token, denier)]. *)
Definition denyApproval (m : ApprovalManager) (token : jsstring)
  (denier : CallerIdentity) : ApprovalResult * ApprovalManager :=
  match pendingApprovals m !! token with
  | None => (failure (js "Approval token not found"), m)
  | Some l =>
    match heap m !! l with
    | None => (failure (js "Approval token not found"), m)
    | Some approval =>
      if negb (bool_decide (pa_status approval = pending)) then
        (failure (js "Approval is already " ++ statusString (pa_status approval)), m)
      else
        (succeeded l, setStatus m l denied)
    end
  end.

(** [expireApproval(token)], the callback of the timer. *)
Definition expireApproval (m : ApprovalManager) (token : jsstring)
  : ApprovalManager :=
  match pendingApprovals m !! token with
  | Some l => if isPending m l then setStatus m l expired else m
  | None => m
  end.

(** [cleanup(olderThan?)] at clock reading [now]. *)
Definition removable (m : ApprovalManager) (cutoff : Date) (l : ref) : bool :=
  match heap m !! l with
  | Some a =>
    negb (bool_decide (pa_status a = pending)) && dateLt (pa_createdAt a) cutoff
  | None => false
  end.

Definition cleanup (m : ApprovalManager) (olderThan : option Date) (now : Z)
  : nat * ApprovalManager :=
  let cutoff :=
    match olderThan with
    | Some d => d
    | None => newDate (Some (now - 24 * 60 * 60 * 1000)%Z)
    end in
  let kept :=
    filter (fun kv : jsstring * ref => removable m cutoff kv.2 = false)
           (pendingApprovals m) in
  ((size (pendingApprovals m) - size kept)%nat,
   {| pendingApprovals := kept;
      heap := heap m;
      defaultTTL := defaultTTL m;
      timers := timers m |}).

(** The operations of the store, and the state each one leaves. *)
Inductive StoreOp : Type :=
| OpCreate (context : ToolCallContext) (decision : PolicyDecision)
           (ttl : option Z) (now : Z)
| OpGet (token : jsstring)
| OpList
| OpGrant (token : jsstring) (approver : CallerIdentity) (now : Z)
| OpDeny (token : jsstring) (denier : CallerIdentity)
| OpExpire (token : jsstring)
| OpCleanup (olderThan : option Date) (now : Z).

Definition applyOp (op : StoreOp) (m : ApprovalManager) : ApprovalManager :=
  match op with
  | OpCreate context decision ttl now => (createApproval m context decision ttl now).2
  | OpGet _ => m
  | OpList => m
  | OpGrant token approver now => (grantApproval m token approver now).2
  | OpDeny token denier => (denyApproval m token denier).2
  | OpExpire token => expireApproval m token
  | OpCleanup olderThan now => (cleanup m olderThan now).2
  end.

(** ** audit-logger.ts: the interface of the audit sink

    Every method is asynchronous; its promise resolves or rejects, and the
    sink has a state of its own. *)
Class IAuditLogger (S : Type) : Type := {
  logToolCall : ToolCallContext -> PolicyDecision -> S -> Completion unit * S;
  logApprovalGranted : ToolCallContext -> CallerIdentity -> S -> Completion unit * S;
  logApprovalDenied : ToolCallContext -> CallerIdentity -> S -> Completion unit * S;
  logExecutionSuccess : ToolCallContext -> JsValue -> S -> Completion unit * S;
  logExecutionFailure : ToolCallContext -> jsstring -> S -> Completion unit * S
}.

(** ** gateway.ts *)

Record ExecutionResult : Type := {
  er_success : bool;
  er_output : option JsValue;
  er_error : option jsstring
}.

Record GatewayCallResult : Type := {
  allowed : bool;
  gr_decision : PolicyDecision;
  gr_approvalToken : option jsstring;
  gr_context : ToolCallContext;
  gr_result : option ExecutionResult
}.

(** The executor handed in by the caller, [() => Promise<T>]: what its
    promise settles to when it is invoked. *)
Definition Executor : Type := Completion JsValue.

(** What the orchestrator asks of its collaborators, in order. *)
Inductive Notification : Type :=
| NToolCall (context : ToolCallContext) (decision : PolicyDecision)
| NApprovalGranted (context : ToolCallContext) (approver : CallerIdentity)
| NApprovalDenied (context : ToolCallContext) (denier : CallerIdentity)
| NExecutionSuccess (context : ToolCallContext) (output : JsValue)
| NExecutionFailure (context : ToolCallContext) (error : jsstring).

Inductive Event : Type :=
| Notified (n : Notification)
| ExecutorInvoked.

(** A gateway and its environment: the three collaborators of
    [SecureMCPGateway], the entropy behind [uuidv4], the clock behind
    [new Date()], and the journal of the calls made so far to the audit
    sink and to executors. *)
Record World (S : Type) : Type := {
  policy : PolicyConfig;
  auditLogger : S;
  approvalManager : ApprovalManager;
  entropy : Rng;
  clock : Z;
  journal : list Event
}.

Arguments policy {S} w.
Arguments auditLogger {S} w.
Arguments approvalManager {S} w.
Arguments entropy {S} w.
Arguments clock {S} w.
Arguments journal {S} w.

(** [new SecureMCPGateway(config)]: the approval manager is built from
    [{ defaultTTL: config.approvalTTL }]. *)
Definition newGateway {S : Type} (configPolicy : PolicyConfig) (logger : S)
  (approvalTTL : option Z) (g : Rng) (now : Z) : World S :=
  {| policy := configPolicy;
     auditLogger := logger;
     approvalManager :=
       newApprovalManager (Some {| cfg_defaultTTL := Some approvalTTL |});
     entropy := g;
     clock := now;
     journal := [] |}.

(** Asynchronous code over a world: state and exceptions. *)
Definition JS (S A : Type) : Type := World S -> Completion A * World S.

Definition ret {S A : Type} (a : A) : JS S A := fun w => (Return a, w).

Definition throw {S A : Type} (e : Thrown) : JS S A := fun w => (Throw e, w).

Definition bind {S A B : Type} (c : JS S A) (k : A -> JS S B) : JS S B :=
  fun w =>
    match c w with
    | (Return a, w') => k a w'
    | (Throw e, w') => (Throw e, w')
    end.

(** [try { body } catch (error) { handler }] *)
Definition tryCatch {S A : Type} (body : JS S A) (handler : Thrown -> JS S A)
  : JS S A :=
  fun w =>
    match body w with
    | (Return a, w') => (Return a, w')
    | (Throw e, w') => handler e w'
    end.

Declare Scope js_scope.
Delimit Scope js_scope with js.
Notation "'let*' x := c 'in' k" := (bind c (fun x => k))
  (at level 10, x pattern, c at level 100, k at level 200) : js_scope.
Notation "c ;;; k" := (bind c (fun _ => k))
  (at level 100, right associativity) : js_scope.

Section Gateway.

Variable unicodeUpper : N -> N.
Context {S : Type} `{IAuditLogger S}.

Local Open Scope js_scope.

Definition withParts (w : World S) (logger : S) (m : ApprovalManager)
  (g : Rng) (j : list Event) : World S :=
  {| policy := policy w; auditLogger := logger; approvalManager := m;
     entropy := g; clock := clock w; journal := j |}.

(** [uuidv4()] *)
Definition drawUuid : JS S jsstring :=
  fun w =>
    let '(u, g) := uuidv4 (entropy w) in
    (Return u, withParts w (auditLogger w) (approvalManager w) g (journal w)).

(** [new Date()] *)
Definition today : JS S Date := fun w => (Return (ValidDate (clock w)), w).

(** [this.policyEngine.evaluatePolicy(context)] *)
Definition policyEngine_evaluatePolicy (context : ToolCallContext)
  : JS S PolicyDecision :=
  fun w =>
    let '(decision, g) := evaluatePolicy unicodeUpper (policy w) context (entropy w) in
    (Return decision,
     withParts w (auditLogger w) (approvalManager w) g (journal w)).

(** [await this.auditLogger.<method>(...)]: the call is journalled, then
    settles as the sink decides. *)
Definition callSink (n : Notification) : JS S unit :=
  fun w =>
    let '(c, logger) :=
      match n with
      | NToolCall context decision => logToolCall context decision (auditLogger w)
      | NApprovalGranted context approver =>
        logApprovalGranted context approver (auditLogger w)
      | NApprovalDenied context denier =>
        logApprovalDenied context denier (auditLogger w)
      | NExecutionSuccess context output =>
        logExecutionSuccess context output (auditLogger w)
      | NExecutionFailure context error =>
        logExecutionFailure context error (auditLogger w)
      end in
    (c, withParts w logger (approvalManager w) (entropy w)
          (journal w ++ [Notified n])).

(** [await executor()] *)
Definition invoke (executor : Executor) : JS S JsValue :=
  fun w =>
    (executor,
     withParts w (auditLogger w) (approvalManager w) (entropy w)
       (journal w ++ [ExecutorInvoked])).

(** Reading a property of the object behind a reference.  References held
    by the orchestrator come from the store and are never dangling; the
    [None] branch is there for totality. *)
Definition deref (l : ref) : JS S PendingApproval :=
  fun w =>
    match heap (approvalManager w) !! l with
    | Some approval => (Return approval, w)
    | None => (Throw (ThrownError (js "TypeError")), w)
    end.

(** [this.approvalManager.createApproval(context, decision)] *)
Definition approvalManager_createApproval (context : ToolCallContext)
  (decision : PolicyDecision) : JS S ref :=
  fun w =>
    let '(c, m) := createApproval (approvalManager w) context decision None (clock w) in
    (c, withParts w (auditLogger w) m (entropy w) (journal w)).

Definition approvalManager_grantApproval (token : jsstring)
  (approver : CallerIdentity) : JS S ApprovalResult :=
  fun w =>
    let '(r, m) := grantApproval (approvalManager w) token approver (clock w) in
    (Return r, withParts w (auditLogger w) m (entropy w) (journal w)).


(** [error instanceof Error ? error.message : String(error)] *)
Definition errorMessageOf (error : Thrown) : jsstring :=
  match error with
  | ThrownError message => message
  | ThrownOther asString => asString
  end.

Definition evaluateToolCall (tool action : jsstring)
  (severity : OperationSeverity) (caller : CallerIdentity)
  (args metadata : option JsValue) : JS S GatewayCallResult :=
  let* callId := drawUuid in
  let* timestamp := today in
  let context := {|
    ctx_callId := callId; ctx_tool := tool; ctx_action := action;
    ctx_severity := severity; ctx_caller := caller; ctx_args := args;
    ctx_timestamp := timestamp; ctx_metadata := metadata |} in
  let* decision := policyEngine_evaluatePolicy context in
  callSink (NToolCall context decision) ;;;
  match dec_effect decision with
  | ALLOW =>
    ret {| allowed := true; gr_decision := decision; gr_approvalToken := None;
           gr_context := context; gr_result := None |}
  | DENY =>
    ret {| allowed := false; gr_decision := decision; gr_approvalToken := None;
           gr_context := context; gr_result := None |}
  | REVIEW =>
    let* l := approvalManager_createApproval context decision in
    let* approval := deref l in
    ret {| allowed := false; gr_decision := decision;
           gr_approvalToken := Some (pa_token approval);
           gr_context := context; gr_result := None |}
  end.

Definition withResult (r : GatewayCallResult) (e : ExecutionResult)
  : GatewayCallResult :=
  {| allowed := allowed r; gr_decision := gr_decision r;
     gr_approvalToken := gr_approvalToken r; gr_context := gr_context r;
     gr_result := Some e |}.

Definition executeToolCall (tool action : jsstring)
  (severity : OperationSeverity) (caller : CallerIdentity)
  (executor : Executor) (args metadata : option JsValue)
  : JS S GatewayCallResult :=
  let* evalResult := evaluateToolCall tool action severity caller args metadata in
  if negb (allowed evalResult) then ret evalResult
  else
    tryCatch
      (let* output := invoke executor in
       callSink (NExecutionSuccess (gr_context evalResult) output) ;;;
       ret (withResult evalResult
              {| er_success := true; er_output := Some output; er_error := None |}))
      (fun error =>
         let errorMessage := errorMessageOf error in
         callSink (NExecutionFailure (gr_context evalResult) errorMessage) ;;;
         ret (withResult evalResult
                {| er_success := false; er_output := None;
                   er_error := Some errorMessage |})).

Definition grantApprovalAndExecute (approvalToken : jsstring)
  (approver : CallerIdentity) (executor : Executor) : JS S GatewayCallResult :=
  let* result := approvalManager_grantApproval approvalToken approver in
  match res_success result, res_approval result with
  | true, Some l =>
    let* approval := deref l in
    let context := pa_context approval in
    callSink (NApprovalGranted context approver) ;;;
    tryCatch
      (let* output := invoke executor in
       callSink (NExecutionSuccess context output) ;;;
       ret {| allowed := true; gr_decision := pa_decision approval;
              gr_approvalToken := None; gr_context := context;
              gr_result := Some {| er_success := true; er_output := Some output;
                                   er_error := None |} |})
      (fun error =>
         let errorMessage := errorMessageOf error in
         callSink (NExecutionFailure context errorMessage) ;;;
         ret {| allowed := true; gr_decision := pa_decision approval;
                gr_approvalToken := None; gr_context := context;
                gr_result := Some {| er_success := false; er_output := None;
                                     er_error := Some errorMessage |} |})
  | _, _ =>
    throw (ThrownError (orElse (res_error result) (js "Failed to grant approval")))
  end.


End Gateway.

(** The audit sink of the test suite: it records and always resolves. *)
#[global] Instance MockAuditLogger : IAuditLogger (list Notification) := {|
  logToolCall context decision logs :=
    (Return tt, logs ++ [NToolCall context decision]);
  logApprovalGranted context approvedBy logs :=
    (Return tt, logs ++ [NApprovalGranted context approvedBy]);
  logApprovalDenied context deniedBy logs :=
    (Return tt, logs ++ [NApprovalDenied context deniedBy]);
  logExecutionSuccess context output logs :=
    (Return tt, logs ++ [NExecutionSuccess context output]);
  logExecutionFailure context error logs :=
    (Return tt, logs ++ [NExecutionFailure context error])
|}.

(** [AuditLogger] writing to a file: [writeLogEntry] appends one line per
    entry and its promise rejects when [fs.appendFile] fails.  The state is
    the number of lines the file system will still accept. *)
Record FileLog : Type := { room : nat }.

Definition writeLogEntry (log : FileLog) : Completion unit * FileLog :=
  match room log with
  | O => (Throw (ThrownError (js "ENOSPC: no space left on device, open")), log)
  | Datatypes.S n => (Return tt, {| room := n |})
  end.

#[global] Instance AuditLogger : IAuditLogger FileLog := {|
  logToolCall context decision log :=
    (* the entry 'tool_call', then the entry 'policy_decision' *)
    match writeLogEntry log with
    | (Return _, log') => writeLogEntry log'
    | (Throw e, log') => (Throw e, log')
    end;
  logApprovalGranted context approvedBy log := writeLogEntry log;
  logApprovalDenied context deniedBy log := writeLogEntry log;
  logExecutionSuccess context output log := writeLogEntry log;
  logExecutionFailure context error log := writeLogEntry log
|}.

(** ** validation.ts: what the audit logger and the log lines rely on *)

(** [s.replace(/c/g, replacement)] for a single character [c]. *)
Definition replaceAllChar (c : N) (replacement : jsstring) (s : jsstring)
  : jsstring :=
  flat_map (fun x => if x =? c then replacement else [x]) s.

(** [sanitizeForLog]: CR, LF and TAB become the two characters of their
    escape ([\] followed by [r], [n], [t]); NUL is removed. *)
Definition sanitizeForLog (value : jsstring) : jsstring :=
  replaceAllChar 0 []
    (replaceAllChar 9 [92; 116]
       (replaceAllChar 10 [92; 110]
          (replaceAllChar 13 [92; 114] value))).

Definition SENSITIVE_FIELD_NAMES : list jsstring :=
  [js "password"; js "token"; js "secret"; js "apikey"; js "api_key";
   js "apiKey"; js "authorization"; js "auth"; js "credential";
   js "credentials"; js "privatekey"; js "private_key"; js "privateKey";
   js "accesstoken"; js "access_token"; js "accessToken"; js "refreshtoken";
   js "refresh_token"; js "refreshToken"; js "sessionid"; js "session_id";
   js "sessionId"; js "cookie"; js "cookies"].

Section Redaction.

(** [String.prototype.toLowerCase], a function of the runtime. *)
Variable toLowerCase : jsstring -> jsstring.

(** [SENSITIVE_FIELD_NAMES.some(sensitive => keyLower.includes(sensitive))] *)
Definition isSensitive (key : jsstring) : bool :=
  existsb (fun sensitive => includes (toLowerCase key) sensitive)
          SENSITIVE_FIELD_NAMES.

(** The key [__proto__]: the assignment [redacted[key] = v] on the object
    literal [{}] goes to the accessor of [Object.prototype] and creates no
    property of [redacted]. *)
Definition isProtoKey (key : jsstring) : bool :=
  bool_decide (key = js "__proto__").

(** [redactSensitiveFields(obj, redactValue)].  The fields of a [JsObject]
    are its entries, in the order of [Object.entries]. *)
Fixpoint redactSensitiveFields (redactValue : jsstring) (obj : JsValue)
  {struct obj} : JsValue :=
  match obj with
  | JsArray items => JsArray (map (redactSensitiveFields redactValue) items)
  | JsObject fields =>
    JsObject
      ((fix entriesOf (fs : list (jsstring * JsValue))
          : list (jsstring * JsValue) :=
          match fs with
          | [] => []
          | (key, value) :: fs' =>
            if isProtoKey key then entriesOf fs'
            else
              (key,
               if isSensitive key then JsString redactValue
               else
                 match value with
                 | JsArray _ | JsObject _ =>
                   redactSensitiveFields redactValue value
                 | _ => value
                 end) :: entriesOf fs'
          end) fields)
  | _ => obj
  end.

(** A value leaks: somewhere in it, at any depth, a sensitive key holds
    something else than the string [redactValue]. *)
Fixpoint leaks (redactValue : jsstring) (v : JsValue) {struct v} : bool :=
  match v with
  | JsArray items => existsb (leaks redactValue) items
  | JsObject fields =>
    (fix someLeak (fs : list (jsstring * JsValue)) : bool :=
       match fs with
       | [] => false
       | (key, value) :: fs' =>
         (if isSensitive key then
            match value with
            | JsString s => negb (bool_decide (s = redactValue))
            | _ => true
            end
          else leaks redactValue value)
         || someLeak fs'
       end) fields
  | _ => false
  end.

End Redaction.

(** * Specification

    The relations and predicates in which the properties are stated, and
    the fixtures of the examples. *)

(** ** Glob patterns *)

(** The regular expression that [new RegExp] builds from [regexSource]:
    [*] becomes [.*], every other character a literal. *)
Definition compileGlob (pattern : jsstring) : list RegExp.Term :=
  map (fun c => if c =? 42 then RegExp.TStar RegExp.Dot
                else RegExp.TAtom (RegExp.PatternCharacter c)) pattern.

(** The text between [^] and [$]. *)
Definition regexBody (pattern : jsstring) : jsstring :=
  join (js ".*") (map escapePart (split 42 pattern)).

Section GlobRelation.

Variable unicodeUpper : N -> N.

(** [GlobMatch runChar pattern value]: [value] is [pattern] with each [*]
    replaced by a run of characters that satisfy [runChar], and every
    other character by one that is equal to it up to case. *)
Inductive GlobMatch (runChar : N -> bool) : jsstring -> jsstring -> Prop :=
| glob_nil : GlobMatch runChar [] []
| glob_char c d p v :
    c <> 42 ->
    RegExp.Canonicalize unicodeUpper c = RegExp.Canonicalize unicodeUpper d ->
    GlobMatch runChar p v ->
    GlobMatch runChar (c :: p) (d :: v)
| glob_star run p v :
    forallb runChar run = true -> GlobMatch runChar p v ->
    GlobMatch runChar (42 :: p) (run ++ v).

(** Equality up to case. *)
Definition ciEqual (a b : jsstring) : Prop :=
  map (RegExp.Canonicalize unicodeUpper) a
  = map (RegExp.Canonicalize unicodeUpper) b.

Definition anyChar (c : N) : bool := true.
Definition notLineTerminator (c : N) : bool := negb (RegExp.isLineTerminator c).

End GlobRelation.

Definition hasStar (pattern : jsstring) : bool := existsb (N.eqb 42) pattern.

(** ** Satisfied rules *)

Section Satisfaction.

Variable unicodeUpper : N -> N.

(** A match-spec is satisfied: every field that is present, and for which
    [active] holds when it is a string, matches the context. *)
Definition satisfiedWith (active : jsstring -> bool)
  (context : ToolCallContext) (m : RuleMatch) : Prop :=
  (forall p, match_tool m = Some p -> active p = true ->
             matchesPattern unicodeUpper (ctx_tool context) p = true)
  /\ (forall p, match_action m = Some p -> active p = true ->
                matchesPattern unicodeUpper (ctx_action context) p = true)
  /\ (forall s, match_minSeverity m = Some s ->
                (SEVERITY_ORDER s <= SEVERITY_ORDER (ctx_severity context))%Z)
  /\ (forall k, match_callerType m = Some k ->
                caller_type (ctx_caller context) = k)
  /\ (forall f, match_custom m = Some f -> f context = true).

(** [res] is the first rule of [rs], in list order, that satisfies [sat];
    [None] when no rule does. *)
Definition FirstSatisfied (sat : PolicyRule -> Prop) (rs : list PolicyRule)
  (res : option PolicyRule) : Prop :=
  match res with
  | Some r => exists pre post,
      rs = pre ++ r :: post /\ (forall r', r' ∈ pre -> ~ sat r') /\ sat r
  | None => forall r, r ∈ rs -> ~ sat r
  end.


Definition nonEmpty (s : jsstring) : bool :=
  match s with [] => false | _ :: _ => true end.

End Satisfaction.

(** ** The approval store *)

(** Every token of the map refers to an object of the heap. *)
Definition wellFormed (m : ApprovalManager) : Prop :=
  forall (token : jsstring) (l : ref),
    pendingApprovals m !! token = Some l -> is_Some (heap m !! l).


(** Not expired at clock reading [now], as [grantApproval] sees it. *)
Definition unexpiredAt (a : PendingApproval) (now : Z) : Prop :=
  match pa_expiresAt a with
  | Some expiresAt => dateLt expiresAt (ValidDate now) = false
  | None => True
  end.

(** ** The orchestrator *)

(** Counting in the journal. *)
Definition isExecutionFailure (e : Event) : bool :=
  match e with
  | Notified (NExecutionFailure _ _) => true
  | _ => false
  end.

Definition isInvocation (e : Event) : bool :=
  match e with
  | ExecutorInvoked => true
  | _ => false
  end.

Definition count (f : Event -> bool) (j : list Event) : nat :=
  length (List.filter f j).

(** The context that [evaluateToolCall] builds in world [w]. *)
Definition contextIn {S : Type} (w : World S) (tool action : jsstring)
  (severity : OperationSeverity) (caller : CallerIdentity)
  (args metadata : option JsValue) : ToolCallContext :=
  {| ctx_callId := (uuidv4 (entropy w)).1; ctx_tool := tool;
     ctx_action := action; ctx_severity := severity; ctx_caller := caller;
     ctx_args := args; ctx_timestamp := ValidDate (clock w);
     ctx_metadata := metadata |}.

(** The decision of the policy engine on that context. *)
Definition decisionIn {S : Type} (unicodeUpper : N -> N) (w : World S)
  (context : ToolCallContext) : PolicyDecision :=
  (evaluatePolicy unicodeUpper (policy w) context (uuidv4 (entropy w)).2).1.

(** ** Fixtures *)

(** The runtime table used in the closed examples: no cased letter outside
    ASCII.  The examples only contain ASCII. *)
Definition noUpper (c : N) : N := c.



Definition testCaller : CallerIdentity :=
  {| caller_id := js "test-agent-001"; caller_name := js "Test Agent";
     caller_type := agent; caller_metadata := None |}.

Definition jiraSearch (severity : OperationSeverity) : ToolCallContext :=
  {| ctx_callId := js "test-001"; ctx_tool := js "jira";
     ctx_action := js "search_issues"; ctx_severity := severity;
     ctx_caller := testCaller; ctx_args := None;
     ctx_timestamp := ValidDate 1700000000000; ctx_metadata := None |}.

Definition deleteDb (severity : OperationSeverity) : ToolCallContext :=
  {| ctx_callId := js "test-002"; ctx_tool := js "postgres";
     ctx_action := js "delete_db"; ctx_severity := severity;
     ctx_caller := testCaller; ctx_args := None;
     ctx_timestamp := ValidDate 1700000000000; ctx_metadata := None |}.

Definition reviewByDefault : PolicyConfig :=
  {| rules := []; defaultEffect := REVIEW; defaultReason := None |}.

(** A source of entropy for the examples. *)
Definition tokens : Rng := fun n => js "token-" ++ [48 + N.of_nat n].

(** The fixtures of the test suite of the approval manager. *)
Definition testContext : ToolCallContext :=
  {| ctx_callId := js "test-call-001"; ctx_tool := js "test-tool";
     ctx_action := js "test-action"; ctx_severity := MEDIUM;
     ctx_caller := {| caller_id := js "test-caller-001";
                      caller_name := js "Test Caller"; caller_type := agent;
                      caller_metadata := None |};
     ctx_args := None; ctx_timestamp := ValidDate 1000; ctx_metadata := None |}.

Definition testDecision : PolicyDecision :=
  {| dec_effect := REVIEW; dec_reason := js "Test approval required";
     dec_rule := Some (js "test-rule");
     dec_approvalToken := Some (js "test-token-001") |}.

Definition testApprover : CallerIdentity :=
  {| caller_id := js "approver-001"; caller_name := js "Approver";
     caller_type := human; caller_metadata := None |}.

(** [new ApprovalManager({ defaultTTL: 60000 })] *)
Definition testManager : ApprovalManager :=
  newApprovalManager (Some {| cfg_defaultTTL := Some (Some 60000%Z) |}).

(** The manager after [createApproval(testContext, testDecision, ttl)] at
    clock reading 1000. *)
Definition managerWith (ttl : option Z) : ApprovalManager :=
  (createApproval testManager testContext testDecision ttl 1000).2.

(** The manager after a first grant, at clock reading 2000. *)
Definition grantedManager : ApprovalManager :=
  (grantApproval (managerWith None) (js "test-token-001") testApprover 2000).2.

Definition grantedRecord : PendingApproval :=
  {| pa_token := js "test-token-001"; pa_context := testContext;
     pa_decision := testDecision; pa_createdAt := ValidDate 1000;
     pa_expiresAt := Some (ValidDate 61000); pa_status := approved |}.

(** A gateway over the sink of the test suite: default policy, approval
    TTL of one minute, nothing stored yet. *)
Definition mockWorld : World (list Notification) :=
  newGateway createDefaultPolicy [] (Some 60000%Z) tokens 1000.

(** A gateway over a file sink with room for two more lines. *)
Definition fullDiskWorld : World FileLog :=
  newGateway createDefaultPolicy {| room := 2 |} (Some 60000%Z) tokens 1000.

Definition boom : Thrown := ThrownError (js "boom").

(** ** Histories of the approval store *)

(** The store after a sequence of operations. *)
Definition runOps (ops : list StoreOp) (m : ApprovalManager) : ApprovalManager :=
  foldl (fun m op => applyOp op m) m ops.

(** The record stored under a token carries that token. *)
Definition tokenConsistent (m : ApprovalManager) : Prop :=
  forall (token : jsstring) (l : ref) (a : PendingApproval),
    pendingApprovals m !! token = Some l -> heap m !! l = Some a ->
    pa_token a = token.

(** The TTL that [createApproval] works with: [ttl || this.config.defaultTTL]. *)
Definition effectiveTTL (m : ApprovalManager) (ttl : option Z) : option Z :=
  if truthyNumber ttl then ttl else defaultTTL m.

(** The token an operation is about. *)
Definition opToken (op : StoreOp) : option jsstring :=
  match op with
  | OpCreate _ decision _ _ => dec_approvalToken decision
  | OpGet token => Some token
  | OpList => None
  | OpGrant token _ _ => Some token
  | OpDeny token _ => Some token
  | OpExpire token => Some token
  | OpCleanup _ _ => None
  end.

Definition isCleanup (op : StoreOp) : bool :=
  match op with
  | OpCleanup _ _ => true
  | _ => false
  end.

(** The cutoff of [cleanup(olderThan?)] at clock reading [now]. *)
Definition cleanupCutoff (olderThan : option Date) (now : Z) : Date :=
  match olderThan with
  | Some d => d
  | None => newDate (Some (now - 24 * 60 * 60 * 1000)%Z)
  end.

(** [{ ...testDecision, approvalToken: undefined }] *)
Definition invalidDecision : PolicyDecision :=
  {| dec_effect := REVIEW; dec_reason := js "Test approval required";
     dec_rule := Some (js "test-rule"); dec_approvalToken := None |}.

Definition secondDecision : PolicyDecision :=
  {| dec_effect := REVIEW; dec_reason := js "Test approval required";
     dec_rule := Some (js "test-rule");
     dec_approvalToken := Some (js "token-002") |}.

(** Two approvals created at clock reading 1000, with the default TTL. *)
Definition twoApprovals : list StoreOp :=
  [OpCreate testContext testDecision None 1000;
   OpCreate testContext secondDecision None 1000].

(** The store with the first of two approvals granted at clock reading
    2000. *)
Definition oneGrantedOnePending : ApprovalManager :=
  applyOp (OpGrant (js "test-token-001") testApprover 2000)
    (runOps twoApprovals (newApprovalManager None)).

Definition secondRecord : PendingApproval :=
  {| pa_token := js "token-002"; pa_context := testContext;
     pa_decision := secondDecision; pa_createdAt := ValidDate 1000;
     pa_expiresAt := Some (ValidDate 3601000); pa_status := pending |}.

(** The record of [managerWith (Some 10)]. *)
Definition shortLivedRecord : PendingApproval :=
  {| pa_token := js "test-token-001"; pa_context := testContext;
     pa_decision := testDecision; pa_createdAt := ValidDate 1000;
     pa_expiresAt := Some (ValidDate 1010); pa_status := pending |}.

(** ** Policy evaluation, further notions *)

(** The ASCII letters of a string in upper case. *)
Definition toUpperAscii (s : jsstring) : jsstring := map RegExp.asciiUpper s.

(** The same call at another severity. *)
Definition withSeverity (context : ToolCallContext) (severity : OperationSeverity)
  : ToolCallContext :=
  {| ctx_callId := ctx_callId context; ctx_tool := ctx_tool context;
     ctx_action := ctx_action context; ctx_severity := severity;
     ctx_caller := ctx_caller context; ctx_args := ctx_args context;
     ctx_timestamp := ctx_timestamp context;
     ctx_metadata := ctx_metadata context |}.

(** A rule that only looks at the severity: from MEDIUM on. *)
Definition fromMedium : PolicyRule :=
  {| rule_id := js "review-medium-and-above"; rule_description := None;
     rule_match := {| match_tool := None; match_action := None;
                      match_minSeverity := Some MEDIUM;
                      match_callerType := None; match_custom := None |};
     rule_effect := REVIEW; rule_reason := None |}.

(** ** The orchestrator, further notions *)

(** The world once [evaluateToolCall] has drawn the call id, evaluated the
    policy and awaited [logToolCall]. *)
Definition loggedWorld {S : Type} `{IAuditLogger S} (unicodeUpper : N -> N)
  (w : World S) (context : ToolCallContext) : World S :=
  {| policy := policy w;
     auditLogger :=
       (logToolCall context (decisionIn unicodeUpper w context) (auditLogger w)).2;
     approvalManager := approvalManager w;
     entropy :=
       (evaluatePolicy unicodeUpper (policy w) context (uuidv4 (entropy w)).2).2;
     clock := clock w;
     journal :=
       journal w ++ [Notified (NToolCall context (decisionIn unicodeUpper w context))] |}.


(** The record that [evaluateToolCall] stores for a Review decision. *)
Definition reviewRecord {S : Type} (w : World S) (context : ToolCallContext)
  (decision : PolicyDecision) (token : jsstring) : PendingApproval :=
  {| pa_token := token; pa_context := context; pa_decision := decision;
     pa_createdAt := ValidDate (clock w);
     pa_expiresAt :=
       Some (newDate (plusNow (clock w) (defaultTTL (approvalManager w))));
     pa_status := pending |}.

(** A world with another approval store. *)
Definition withManager {S : Type} (w : World S) (m : ApprovalManager) : World S :=
  {| policy := policy w; auditLogger := auditLogger w; approvalManager := m;
     entropy := entropy w; clock := clock w; journal := journal w |}.

Definition isNotification (e : Event) : bool :=
  match e with
  | Notified _ => true
  | ExecutorInvoked => false
  end.

(** A sink that rejects the approval-granted and the execution-success
    notifications, and records the others. *)
Record PickyLog : Type := { entries : list Notification }.

#[global] Instance PickyAuditLogger : IAuditLogger PickyLog := {|
  logToolCall context decision log :=
    (Return tt, {| entries := entries log ++ [NToolCall context decision] |});
  logApprovalGranted context approvedBy log :=
    (Throw (ThrownError (js "audit store is read-only")), log);
  logApprovalDenied context deniedBy log :=
    (Return tt, {| entries := entries log ++ [NApprovalDenied context deniedBy] |});
  logExecutionSuccess context output log :=
    (Throw (ThrownError (js "cannot serialize output")), log);
  logExecutionFailure context error log :=
    (Return tt, {| entries := entries log ++ [NExecutionFailure context error] |})
|}.

Definition pickyWorld : World PickyLog :=
  newGateway createDefaultPolicy {| entries := [] |} (Some 60000%Z) tokens 1000.




Definition pickyWorldPending : World PickyLog :=
  withManager pickyWorld (managerWith None).

Definition pendingRecord : PendingApproval :=
  {| pa_token := js "test-token-001"; pa_context := testContext;
     pa_decision := testDecision; pa_createdAt := ValidDate 1000;
     pa_expiresAt := Some (ValidDate 61000); pa_status := pending |}.

(** ** Values *)

(** Induction on values, through arrays and objects. *)
Section JsValueInduction.

Variable P : JsValue -> Prop.
Hypothesis Pundefined : P JsUndefined.
Hypothesis Pnull : P JsNull.
Hypothesis Pbool : forall b, P (JsBool b).
Hypothesis Pnumber : forall z, P (JsNumber z).
Hypothesis Pstring : forall s, P (JsString s).
Hypothesis Parray : forall items, Forall P items -> P (JsArray items).
Hypothesis Pobject :
  forall fields, Forall (fun kv => P kv.2) fields -> P (JsObject fields).

Fixpoint JsValue_induction (v : JsValue) : P v :=
  match v with
  | JsUndefined => Pundefined
  | JsNull => Pnull
  | JsBool b => Pbool b
  | JsNumber z => Pnumber z
  | JsString s => Pstring s
  | JsArray items =>
    Parray items
      ((fix all (l : list JsValue) : Forall P l :=
          match l with
          | [] => List.Forall_nil P
          | x :: l' => List.Forall_cons P x l' (JsValue_induction x) (all l')
          end) items)
  | JsObject fields =>
    Pobject fields
      ((fix all (l : list (jsstring * JsValue)) : Forall (fun kv => P kv.2) l :=
          match l with
          | [] => List.Forall_nil _
          | kv :: l' =>
            List.Forall_cons _ kv l' (JsValue_induction kv.2) (all l')
          end) fields)
  end.

End JsValueInduction.

(** The characters that [sanitizeForLog] deals with: NUL, TAB, LF, CR. *)
Definition isLogControl (c : N) : bool :=
  (c =? 0) || (c =? 9) || (c =? 10) || (c =? 13).

(** A value with a secret at depth two, and a key in upper case. *)
Definition secretArgs : JsValue :=
  JsObject [(js "issueKey", JsString (js "OPS-1"));
            (js "auth", JsObject [(js "user", JsString (js "ops"));
                                  (js "PASSWORD", JsString (js "hunter2"))]);
            (js "apiToken", JsString (js "abc"))].

(** Lower case for strings of ASCII letters, for the examples. *)
Definition asciiLower (s : jsstring) : jsstring :=
  map (fun c => if (65 <=? c) && (c <=? 90) then c + 32 else c) s.

(** One entry of the result of [redactSensitiveFields] on an object, as a
    list: nothing for [__proto__]. *)
Definition redactEntry (toLowerCase : jsstring -> jsstring)
  (redactValue : jsstring) (kv : jsstring * JsValue)
  : list (jsstring * JsValue) :=
  if isProtoKey kv.1 then []
  else [(kv.1, if isSensitive toLowerCase kv.1 then JsString redactValue
               else redactSensitiveFields toLowerCase redactValue kv.2)].

(** One entry of an object leaks. *)
Definition entryLeaks (toLowerCase : jsstring -> jsstring)
  (redactValue : jsstring) (kv : jsstring * JsValue) : bool :=
  if isSensitive toLowerCase kv.1 then
    match kv.2 with
    | JsString s => negb (bool_decide (s = redactValue))
    | _ => true
    end
  else leaks toLowerCase redactValue kv.2.

(** What [sanitizeForLog] makes of one character. *)
Definition sanitizeChar (c : N) : jsstring :=
  if c =? 13 then [92; 114]
  else if c =? 10 then [92; 110]
  else if c =? 9 then [92; 116]
  else if c =? 0 then []
  else [c].

(** * Properties *)

(** ** Glob matching ([matchesPattern]) *)

Lemma split_nonempty sep s : split sep s <> [].
Proof.
  destruct s as [|c s]; simpl; [discriminate|].
  destruct (c =? sep); [discriminate|].
  destruct (split sep s); discriminate.
Qed.

Lemma join_cons_app sep a b ps :
  join sep ((a ++ b) :: ps) = a ++ join sep (b :: ps).
Proof.
  destruct ps as [|q ps]; simpl; [reflexivity|].
  now rewrite <- app_assoc.
Qed.

Lemma regexBody_star p : regexBody (42 :: p) = 46 :: 42 :: regexBody p.
Proof.
  unfold regexBody. simpl split. simpl map.
  destruct (map escapePart (split 42 p)) as [|q qs] eqn:E.
  - apply map_eq_nil in E. now apply split_nonempty in E.
  - reflexivity.
Qed.

Lemma regexBody_char c p :
  c <> 42 ->
  regexBody (c :: p) =
  (if RegExp.isSyntaxCharacter c then [92; c] else [c]) ++ regexBody p.
Proof.
  intros Hc. unfold regexBody. simpl split.
  destruct (N.eqb_spec c 42) as [->|_]; [congruence|].
  destruct (split 42 p) as [|p0 ps] eqn:E; [now apply split_nonempty in E|].
  simpl map.
  change (escapePart (c :: p0))
    with ((if RegExp.isSyntaxCharacter c then [92; c] else [c]) ++ escapePart p0).
  apply join_cons_app.
Qed.

Lemma isSyntaxCharacter_false c :
  RegExp.isSyntaxCharacter c = false ->
  c <> 46 /\ c <> 42 /\ c <> 94 /\ c <> 36 /\ c <> 92.
Proof.
  unfold RegExp.isSyntaxCharacter, RegExp.syntaxCharacters. simpl.
  rewrite !orb_false_iff, !N.eqb_neq. tauto.
Qed.

(** What follows [regexBody p] when [$] is appended never starts with the
    quantifier [*]. *)
Lemma regexBody_head p :
  exists q rest, regexBody p ++ [36] = q :: rest /\ q <> 42.
Proof.
  destruct p as [|c p].
  - exists 36, []. split; [reflexivity|discriminate].
  - destruct (N.eq_dec c 42) as [->|Hc].
    + rewrite regexBody_star. eexists _, _. split; [reflexivity|discriminate].
    + rewrite (regexBody_char _ _ Hc).
      destruct (RegExp.isSyntaxCharacter c) eqn:E.
      * eexists _, _. split; [reflexivity|discriminate].
      * eexists _, _. split; [reflexivity|assumption].
Qed.

Lemma parse_escaped e q rest :
  RegExp.isSyntaxCharacter e = true -> q <> 42 ->
  RegExp.parse (92 :: e :: q :: rest) =
  cons (RegExp.TAtom (RegExp.PatternCharacter e)) <$> RegExp.parse (q :: rest).
Proof.
  intros E Hq. simpl. rewrite E.
  destruct (N.eqb_spec q 42); [congruence|]. reflexivity.
Qed.

Lemma parse_literal c q rest :
  RegExp.isSyntaxCharacter c = false -> q <> 42 ->
  RegExp.parse (c :: q :: rest) =
  cons (RegExp.TAtom (RegExp.PatternCharacter c)) <$> RegExp.parse (q :: rest).
Proof.
  intros E Hq.
  destruct (isSyntaxCharacter_false _ E) as (H46 & _ & H94 & H36 & H92).
  simpl. rewrite E.
  destruct (N.eqb_spec c 94); [congruence|].
  destruct (N.eqb_spec c 36); [congruence|].
  destruct (N.eqb_spec c 92); [congruence|].
  destruct (N.eqb_spec c 46); [congruence|].
  destruct (N.eqb_spec q 42); [congruence|]. reflexivity.
Qed.

Lemma parse_regexBody p :
  RegExp.parse (regexBody p ++ [36]) = Some (compileGlob p ++ [RegExp.AssertEnd]).
Proof.
  induction p as [|c p IH].
  - reflexivity.
  - destruct (N.eq_dec c 42) as [->|Hc].
    + rewrite regexBody_star.
      change (RegExp.parse ((46 :: 42 :: regexBody p) ++ [36]))
        with (cons (RegExp.TStar RegExp.Dot) <$> RegExp.parse (regexBody p ++ [36])).
      now rewrite IH.
    + rewrite (regexBody_char _ _ Hc).
      destruct (regexBody_head p) as (q & rest & Hq & Hq42).
      assert (Hcomp : compileGlob (c :: p) =
                      RegExp.TAtom (RegExp.PatternCharacter c) :: compileGlob p).
      { unfold compileGlob. simpl. now destruct (N.eqb_spec c 42). }
      rewrite Hcomp. rewrite Hq in IH.
      destruct (RegExp.isSyntaxCharacter c) eqn:E.
      * change (([92; c] ++ regexBody p) ++ [36])
          with (92 :: c :: (regexBody p ++ [36])).
        rewrite Hq, (parse_escaped _ _ _ E Hq42), IH. reflexivity.
      * change (([c] ++ regexBody p) ++ [36]) with (c :: (regexBody p ++ [36])).
        rewrite Hq, (parse_literal _ _ _ E Hq42), IH. reflexivity.
Qed.

(** [new RegExp] never throws on the source that [matchesPattern] builds. *)
Lemma regexSource_parses pattern :
  RegExp.parse (regexSource pattern) =
  Some (RegExp.AssertBegin :: compileGlob pattern ++ [RegExp.AssertEnd]).
Proof.
  unfold regexSource. fold (regexBody pattern).
  change (RegExp.parse ([94] ++ regexBody pattern ++ [36]))
    with (cons RegExp.AssertBegin <$> RegExp.parse (regexBody pattern ++ [36])).
  now rewrite parse_regexBody.
Qed.

Section GlobSpec.

Variable unicodeUpper : N -> N.

Lemma matchHere_star a ts b v :
  RegExp.matchHere unicodeUpper (RegExp.TStar a :: ts) b v =
  match v with
  | ch :: v' =>
    (RegExp.atomMatches unicodeUpper a ch
     && RegExp.matchHere unicodeUpper (RegExp.TStar a :: ts) false v')
    || RegExp.matchHere unicodeUpper ts b v
  | [] => RegExp.matchHere unicodeUpper ts b v
  end.
Proof. destruct v; reflexivity. Qed.

Lemma compileGlob_cons c p :
  compileGlob (c :: p) =
  (if c =? 42 then RegExp.TStar RegExp.Dot
   else RegExp.TAtom (RegExp.PatternCharacter c)) :: compileGlob p.
Proof. reflexivity. Qed.

Lemma GlobMatch_star_inv runChar p v :
  GlobMatch unicodeUpper runChar (42 :: p) v <->
  exists run v', v = run ++ v' /\ forallb runChar run = true
                 /\ GlobMatch unicodeUpper runChar p v'.
Proof.
  split.
  - inversion 1; subst; [congruence|]. eauto.
  - intros (run & v' & -> & Hrun & H). now constructor.
Qed.

(** The loop of a starred dot: some prefix free of line terminators is
    consumed, the rest is left to the continuation. *)
Lemma star_dot_spec ts (P : jsstring -> Prop) :
  (forall b v, RegExp.matchHere unicodeUpper ts b v = true <-> P v) ->
  forall v b,
    RegExp.matchHere unicodeUpper (RegExp.TStar RegExp.Dot :: ts) b v = true <->
    exists run v', v = run ++ v' /\ forallb notLineTerminator run = true /\ P v'.
Proof.
  intros Hts. induction v as [|ch v IH]; intros b; rewrite matchHere_star.
  - rewrite Hts. split.
    + intros H. exists [], []. auto.
    + intros (run & v' & Hv & _ & H).
      symmetry in Hv. apply app_eq_nil in Hv as [_ ->]. exact H.
  - rewrite orb_true_iff, andb_true_iff, IH, Hts. split.
    + intros [[Hch (run & v' & -> & Hrun & H)] | H].
      * exists (ch :: run), v'. simpl. unfold notLineTerminator at 1.
        simpl in Hch. rewrite Hch, Hrun. auto.
      * exists [], (ch :: v). auto.
    + intros (run & v' & Hv & Hrun & H). destruct run as [|r run].
      * simpl in Hv. subst v'. now right.
      * simpl in Hv. injection Hv as -> ->. simpl in Hrun.
        apply andb_true_iff in Hrun as [Hr Hrun]. left. split; [exact Hr|].
        eauto.
Qed.

Lemma matchHere_compileGlob p :
  forall b v,
    RegExp.matchHere unicodeUpper (compileGlob p ++ [RegExp.AssertEnd]) b v = true
    <-> GlobMatch unicodeUpper notLineTerminator p v.
Proof.
  induction p as [|c p IH]; intros b v.
  - simpl. destruct v; split; intros H; try constructor; try discriminate.
    inversion H.
  - rewrite compileGlob_cons. destruct (N.eqb_spec c 42) as [->|Hc].
    + simpl app. rewrite (star_dot_spec _ _ IH), GlobMatch_star_inv. reflexivity.
    + simpl. destruct v as [|d v].
      * split; [discriminate|]. inversion 1. congruence.
      * rewrite andb_true_iff, IH, N.eqb_eq. split.
        -- intros [Hcd H]. now constructor.
        -- inversion 1; subst; [auto|congruence].
Qed.

Lemma search_anchored ts v :
  RegExp.search unicodeUpper (RegExp.AssertBegin :: ts) false v = false.
Proof. induction v as [|c v IH]; simpl; [reflexivity|]. exact IH. Qed.

Lemma test_anchored ts v :
  RegExp.test unicodeUpper (RegExp.AssertBegin :: ts) v =
  RegExp.matchHere unicodeUpper ts true v.
Proof.
  unfold RegExp.test. destruct v as [|c v]; simpl.
  - now rewrite orb_false_r.
  - now rewrite search_anchored, orb_false_r.
Qed.

Lemma matchesPattern_GlobMatch value pattern :
  matchesPattern unicodeUpper value pattern = true <->
  GlobMatch unicodeUpper notLineTerminator pattern value.
Proof.
  unfold matchesPattern. rewrite regexSource_parses, test_anchored.
  apply matchHere_compileGlob.
Qed.

(** Without [*], the relation is equality up to case. *)
Lemma GlobMatch_no_star runChar p v :
  42 ∉ p -> (GlobMatch unicodeUpper runChar p v <-> ciEqual unicodeUpper v p).
Proof.
  unfold ciEqual. revert v. induction p as [|c p IH]; intros v Hp.
  - split.
    + inversion 1. reflexivity.
    + destruct v; [constructor|discriminate].
  - apply not_elem_of_cons in Hp as [Hc Hp]. split.
    + inversion 1; subst; [|congruence]. simpl. f_equal; [congruence|].
      now apply IH.
    + destruct v as [|d v]; [discriminate|]. simpl. intros [= Hd Hv].
      constructor; [congruence|congruence|]. now apply IH.
Qed.

End GlobSpec.

Lemma hasStar_false pattern : hasStar pattern = false -> 42 ∉ pattern.
Proof.
  unfold hasStar. intros H Hin. apply list_elem_of_In in Hin.
  assert (existsb (N.eqb 42) pattern = true) as Ht.
  { apply existsb_exists. exists 42. split; [assumption|apply N.eqb_refl]. }
  congruence.
Qed.

(** C9, as amended.  Glob matching is anchored and case-insensitive: a value
    matches a pattern iff it is the pattern with each [*] replaced by a
    (possibly empty) run of characters none of which is a line terminator
    (LF, CR, U+2028, U+2029), every other pattern character being taken
    literally up to case; a pattern without [*] matches iff the value equals
    it up to case; "delete_*" matches "delete_db" and "DELETE_DB" and does
    not match "update_db". *)
Theorem matchesPattern_glob (unicodeUpper : N -> N) (value pattern : jsstring) :
  (matchesPattern unicodeUpper value pattern = true <->
   GlobMatch unicodeUpper notLineTerminator pattern value)
  /\ (hasStar pattern = false ->
      (matchesPattern unicodeUpper value pattern = true <->
       ciEqual unicodeUpper value pattern))
  /\ matchesPattern unicodeUpper (js "delete_db") (js "delete_*") = true
  /\ matchesPattern unicodeUpper (js "DELETE_DB") (js "delete_*") = true
  /\ matchesPattern unicodeUpper (js "update_db") (js "delete_*") = false.
Proof.
  split; [apply matchesPattern_GlobMatch|].
  split.
  - intros Hp. rewrite matchesPattern_GlobMatch.
    apply GlobMatch_no_star, hasStar_false, Hp.
  - repeat split; vm_compute; reflexivity.
Qed.

Lemma matchesPattern_glob_witness :
  hasStar (js "jira") = false
  /\ (matchesPattern noUpper (js "JIRA") (js "jira") = true <->
      ciEqual noUpper (js "JIRA") (js "jira")).
Proof.
  split; [reflexivity|].
  apply (proj1 (proj2 (matchesPattern_glob noUpper (js "JIRA") (js "jira")))).
  reflexivity.
Defined.

(** C9 as stated fails: with "any run of characters" for [*], the value
    "a<LF>b" would match the pattern "a*"; [matchesPattern] rejects it. *)
Lemma matchesPattern_any_run_counterexample :
  ~ (forall unicodeUpper value pattern,
       matchesPattern unicodeUpper value pattern = true <->
       GlobMatch unicodeUpper anyChar pattern value).
Proof.
  intros H. destruct (H noUpper [97; 10; 98] (js "a*")) as [_ Hback].
  assert (matchesPattern noUpper [97; 10; 98] (js "a*") = true) as Hm.
  { apply Hback. apply glob_char; [discriminate|reflexivity|].
    apply (glob_star noUpper anyChar [10; 98] [] []); [reflexivity|constructor]. }
  vm_compute in Hm. discriminate.
Qed.

Example ex_glob1 : matchesPattern noUpper (js "delete_db") (js "delete_*") = true.
Proof. vm_compute. reflexivity. Qed.
Example ex_glob2 : matchesPattern noUpper (js "DELETE_DB") (js "delete_*") = true.
Proof. vm_compute. reflexivity. Qed.
Example ex_glob3 : matchesPattern noUpper (js "update_db") (js "delete_*") = false.
Proof. vm_compute. reflexivity. Qed.
Example ex_glob4 : matchesPattern noUpper [97; 10; 98] (js "a*") = false.
Proof. vm_compute. reflexivity. Qed.
Example ex_glob5 : matchesPattern noUpper (js "a.c") (js "a.c") = true
  /\ matchesPattern noUpper (js "abc") (js "a.c") = false
  /\ matchesPattern noUpper (js "xaby") (js "a*b") = false
  /\ matchesPattern noUpper (js "a(b)cd") (js "*(B)*") = true.
Proof. vm_compute. auto. Qed.

(** ** Policy evaluation ([evaluatePolicy], [matchesRule]) *)

Section Evaluate.

Variable unicodeUpper : N -> N.

Lemma matchesRule_satisfied context rule :
  matchesRule unicodeUpper context rule = true <->
  satisfiedWith unicodeUpper nonEmpty context (rule_match rule).
Proof.
  unfold matchesRule, satisfiedWith.
  destruct (rule_match rule) as [t a s k f]; simpl.
  split.
  - intros H.
    destruct t as [[|c p]|];
      [| destruct (matchesPattern _ (ctx_tool context) (c :: p)) eqn:Et;
         [|discriminate] |];
    (destruct a as [[|c' p']|];
      [| destruct (matchesPattern _ (ctx_action context) (c' :: p')) eqn:Ea;
         [|discriminate] |]);
    (destruct s as [s|];
      [destruct (Z.ltb_spec (SEVERITY_ORDER (ctx_severity context))
                            (SEVERITY_ORDER s)); [discriminate|] |]);
    (destruct k as [k|]; [case_bool_decide; [|discriminate] |]);
    (destruct f as [f|]; [destruct (f context) eqn:Ef; [|discriminate] |]);
    repeat split; intros ? [= <-]; try (intros [=]); auto.
  - intros (Ht & Ha & Hs & Hk & Hf).
    destruct t as [[|c p]|]; [| rewrite (Ht _ eq_refl eq_refl) |];
    (destruct a as [[|c' p']|]; [| rewrite (Ha _ eq_refl eq_refl) |]);
    (destruct s as [s|];
      [specialize (Hs _ eq_refl);
       destruct (Z.ltb_spec (SEVERITY_ORDER (ctx_severity context))
                            (SEVERITY_ORDER s)); [lia|] |]);
    (destruct k as [k|];
      [specialize (Hk _ eq_refl); rewrite bool_decide_eq_true_2 by exact Hk |]);
    (destruct f as [f|]; [rewrite (Hf _ eq_refl) |]);
    reflexivity.
Qed.




(** The first satisfied rule is determined by the list. *)
Lemma FirstSatisfied_unique sat rs res1 res2 :
  FirstSatisfied sat rs res1 -> FirstSatisfied sat rs res2 ->
  match res1, res2 with
  | Some r1, Some r2 => r1 = r2
  | None, None => True
  | _, _ => False
  end.
Proof.
  destruct res1 as [r1|], res2 as [r2|]; simpl; auto.
  - intros (pre1 & post1 & E1 & Hpre1 & Hr1) (pre2 & post2 & E2 & Hpre2 & Hr2).
    subst rs. revert pre2 E2 Hpre2.
    induction pre1 as [|x pre1 IH]; intros [|y pre2] E2 Hpre2; simpl in E2.
    + congruence.
    + injection E2 as -> _. exfalso. apply (Hpre2 y); [left|exact Hr1].
    + injection E2 as -> _. exfalso. apply (Hpre1 r2); [left|exact Hr2].
    + injection E2 as -> E2. apply (IH ltac:(intros r' H; apply Hpre1; now right) pre2 E2).
      intros r' H. apply Hpre2. now right.
  - intros (pre & post & -> & _ & Hr) Hnone.
    apply (Hnone r1); [|exact Hr]. apply elem_of_app. right. left.
  - intros Hnone (pre & post & -> & _ & Hr).
    apply (Hnone r2); [|exact Hr]. apply elem_of_app. right. left.
Qed.

End Evaluate.



(** C2.  The decision of [evaluatePolicy] carries an approval token iff its
    effect is Review, whether it comes from a matched rule or from the
    policy default. *)
Theorem evaluatePolicy_token_iff_review (unicodeUpper : N -> N)
  (config : PolicyConfig) (context : ToolCallContext) (g : Rng) :
  is_Some (dec_approvalToken (evaluatePolicy unicodeUpper config context g).1)
  <-> dec_effect (evaluatePolicy unicodeUpper config context g).1 = REVIEW.
Proof.
  unfold evaluatePolicy.
  induction (rules config) as [|rule rs IH]; simpl.
  - unfold defaultDecision. case_bool_decide; simpl.
    + split; [auto|eauto].
    + split; [intros [? [=]]|congruence].
  - destruct (matchesRule unicodeUpper context rule); [|exact IH].
    unfold ruleDecision. case_bool_decide; simpl.
    + split; [auto|eauto].
    + split; [intros [? [=]]|congruence].
Qed.

(** Scenarios of the specification, on the default policy. *)
Example scenario_review_by_default :
  (evaluatePolicy noUpper reviewByDefault (jiraSearch SAFE) tokens).1
  = {| dec_effect := REVIEW;
       dec_reason := js "Operation requires human approval";
       dec_rule := None;
       dec_approvalToken := Some (js "token-0") |}.
Proof. vm_compute. reflexivity. Qed.

Example scenario_critical_delete :
  (evaluatePolicy noUpper createDefaultPolicy (deleteDb CRITICAL) tokens).1
  = {| dec_effect := DENY;
       dec_reason := js "Critical delete operations are not allowed";
       dec_rule := Some (js "deny-critical-delete");
       dec_approvalToken := None |}
  /\ (evaluatePolicy noUpper createDefaultPolicy (deleteDb HIGH) tokens).1
  = {| dec_effect := REVIEW;
       dec_reason := js "High-risk operations require human approval";
       dec_rule := Some (js "review-high-risk");
       dec_approvalToken := Some (js "token-0") |}.
Proof. split; vm_compute; reflexivity. Qed.

(** ** The approval store ([ApprovalManager]) *)

Lemma heap_setStatus_eq m l a s :
  heap m !! l = Some a -> heap (setStatus m l s) !! l = Some (withStatus a s).
Proof.
  intros Ha. unfold setStatus. rewrite Ha. simpl.
  apply list_lookup_insert_eq. now apply lookup_lt_Some in Ha.
Qed.

Lemma heap_setStatus_ne m l l' s :
  l <> l' -> heap (setStatus m l s) !! l' = heap m !! l'.
Proof.
  intros Hne. unfold setStatus. destruct (heap m !! l); [|reflexivity].
  simpl. now apply list_lookup_insert_ne.
Qed.

Lemma pendingApprovals_setStatus m l s :
  pendingApprovals (setStatus m l s) = pendingApprovals m.
Proof. unfold setStatus. now destruct (heap m !! l). Qed.

Lemma getApproval_setStatus m (token : jsstring) l a s :
  pendingApprovals m !! token = Some l -> heap m !! l = Some a ->
  getApproval (setStatus m l s) token = Some (withStatus a s).
Proof.
  intros Ht Ha. unfold getApproval.
  rewrite pendingApprovals_setStatus, Ht. simpl.
  now apply heap_setStatus_eq.
Qed.


Lemma grantApproval_decided m (token : jsstring) l a approver now :
  pendingApprovals m !! token = Some l -> heap m !! l = Some a ->
  pa_status a <> pending ->
  grantApproval m token approver now =
  (failure (js "Approval is already " ++ statusString (pa_status a)), m).
Proof.
  intros Ht Ha Hs. unfold grantApproval. rewrite Ht, Ha.
  now rewrite bool_decide_eq_false_2.
Qed.

Lemma denyApproval_decided m (token : jsstring) l a denier :
  pendingApprovals m !! token = Some l -> heap m !! l = Some a ->
  pa_status a <> pending ->
  denyApproval m token denier =
  (failure (js "Approval is already " ++ statusString (pa_status a)), m).
Proof.
  intros Ht Ha Hs. unfold denyApproval. rewrite Ht, Ha.
  now rewrite bool_decide_eq_false_2.
Qed.

Lemma grantApproval_pending_unexpired m (token : jsstring) l a approver now :
  pendingApprovals m !! token = Some l -> heap m !! l = Some a ->
  pa_status a = pending -> unexpiredAt a now ->
  grantApproval m token approver now = (succeeded l, setStatus m l approved).
Proof.
  intros Ht Ha Hs Hu. unfold grantApproval. rewrite Ht, Ha.
  rewrite bool_decide_eq_true_2 by exact Hs. simpl.
  unfold unexpiredAt in Hu. destruct (pa_expiresAt a); [|reflexivity].
  now rewrite Hu.
Qed.

Lemma grantApproval_pending_expired m (token : jsstring) l a approver now :
  pendingApprovals m !! token = Some l -> heap m !! l = Some a ->
  pa_status a = pending ->
  (exists expiresAt, pa_expiresAt a = Some expiresAt
                     /\ dateLt expiresAt (ValidDate now) = true) ->
  grantApproval m token approver now =
  (failure (js "Approval token has expired"), setStatus m l expired).
Proof.
  intros Ht Ha Hs (d & Hd & Hlt). unfold grantApproval. rewrite Ht, Ha.
  rewrite bool_decide_eq_true_2 by exact Hs. simpl.
  now rewrite Hd, Hlt.
Qed.

Lemma denyApproval_pending m (token : jsstring) l a denier :
  pendingApprovals m !! token = Some l -> heap m !! l = Some a ->
  pa_status a = pending ->
  denyApproval m token denier = (succeeded l, setStatus m l denied).
Proof.
  intros Ht Ha Hs. unfold denyApproval. rewrite Ht, Ha.
  now rewrite bool_decide_eq_true_2 by exact Hs.
Qed.



Lemma is_Some_heap_setStatus m l s l' :
  is_Some (heap (setStatus m l s) !! l') <-> is_Some (heap m !! l').
Proof.
  unfold setStatus. destruct (heap m !! l); [|reflexivity]. simpl.
  now rewrite !lookup_lt_is_Some, length_insert.
Qed.

Lemma wellFormed_setStatus m l s : wellFormed m -> wellFormed (setStatus m l s).
Proof.
  intros Hwf token l'. rewrite pendingApprovals_setStatus, is_Some_heap_setStatus.
  apply Hwf.
Qed.

Lemma wellFormed_new config : wellFormed (newApprovalManager config).
Proof. intros token l. simpl. now rewrite lookup_empty. Qed.

(** No operation leaves a dangling reference in the map. *)
Lemma wellFormed_applyOp op m : wellFormed m -> wellFormed (applyOp op m).
Proof.
  intros Hwf. destruct op; simpl; try assumption.
  - unfold createApproval.
    destruct (dec_approvalToken decision) as [[|c t]|]; simpl; try assumption.
    intros token l. simpl. rewrite lookup_insert.
    case_decide as Heq; intros Hl.
    + injection Hl as <-. rewrite lookup_app_r by lia.
      rewrite Nat.sub_diag. simpl. eauto.
    + destruct (Hwf _ _ Hl) as [a Ha]. exists a. now apply lookup_app_l_Some.
  - unfold grantApproval.
    destruct (pendingApprovals m !! token); [|assumption].
    destruct (heap m !! n); [|assumption].
    repeat (case_match; simpl); auto using wellFormed_setStatus.
  - unfold denyApproval.
    destruct (pendingApprovals m !! token); [|assumption].
    destruct (heap m !! n); [|assumption].
    repeat (case_match; simpl); auto using wellFormed_setStatus.
  - unfold expireApproval.
    destruct (pendingApprovals m !! token); [|assumption].
    case_match; auto using wellFormed_setStatus.
  - intros token l. unfold cleanup. simpl.
    intros [Hl _]%map_lookup_filter_Some. now apply (Hwf token).
Qed.

(** C5, on the code.  With [defaultTTL = 60000], an approval created with a
    ttl of 0 at time 1000 expires at 61000 (0 is falsy: the default TTL is
    taken), so a grant one millisecond later succeeds and approves it; a
    denial of the pending record succeeds as well. *)
Theorem createApproval_zero_ttl_takes_default :
  pa_expiresAt <$> getApproval (managerWith (Some 0%Z)) (js "test-token-001")
    = Some (Some (ValidDate 61000))
  /\ pa_createdAt <$> getApproval (managerWith (Some 0%Z)) (js "test-token-001")
    = Some (ValidDate 1000)
  /\ (grantApproval (managerWith (Some 0%Z)) (js "test-token-001") testApprover 1001).1
     = succeeded 0%nat
  /\ pa_status <$>
       getApproval
         (grantApproval (managerWith (Some 0%Z)) (js "test-token-001") testApprover 1001).2
         (js "test-token-001")
     = Some approved
  /\ (denyApproval (managerWith (Some 0%Z)) (js "test-token-001") testApprover).1
     = succeeded 0%nat.
Proof. repeat split; vm_compute; reflexivity. Qed.







(** C10.  The identity of the approver, or of the denier, has no influence:
    on the same store and token, two identities get the same outcome and
    leave the same store. *)
Theorem approver_identity_irrelevant (m : ApprovalManager) (token : jsstring)
  (a b : CallerIdentity) (now : Z) :
  grantApproval m token a now = grantApproval m token b now
  /\ denyApproval m token a = denyApproval m token b.
Proof. split; reflexivity. Qed.

(** ** The orchestrator ([SecureMCPGateway]) *)

Lemma count_app f j1 j2 : count f (j1 ++ j2) = (count f j1 + count f j2)%nat.
Proof. unfold count. now rewrite List.filter_app, length_app. Qed.

Lemma evaluateToolCall_allow {S : Type} `{IAuditLogger S}
  (unicodeUpper : N -> N) (w : World S) tool action severity caller args metadata :
  let context := contextIn w tool action severity caller args metadata in
  let decision := decisionIn unicodeUpper w context in
  dec_effect decision = ALLOW ->
  (logToolCall context decision (auditLogger w)).1 = Return tt ->
  evaluateToolCall unicodeUpper tool action severity caller args metadata w
  = (Return {| allowed := true; gr_decision := decision;
               gr_approvalToken := None; gr_context := context;
               gr_result := None |},
     {| policy := policy w;
        auditLogger := (logToolCall context decision (auditLogger w)).2;
        approvalManager := approvalManager w;
        entropy :=
          (evaluatePolicy unicodeUpper (policy w) context (uuidv4 (entropy w)).2).2;
        clock := clock w;
        journal := journal w ++ [Notified (NToolCall context decision)] |}).
Proof.
  intros context decision Heff Hlog. subst decision context.
  unfold contextIn, decisionIn in *.
  unfold evaluateToolCall, bind, drawUuid, today, policyEngine_evaluatePolicy,
    callSink, withParts, ret.
  simpl in *.
  destruct (evaluatePolicy unicodeUpper (policy w) _ _) as [d g] eqn:Ed.
  simpl in *.
  destruct (logToolCall _ d (auditLogger w)) as [c logger] eqn:El.
  simpl in *. subst c. rewrite Heff. reflexivity.
Qed.

(** C4, as amended.  When the policy decision on a call is Allow and the
    executor throws or rejects, and the audit sink accepts the tool-call
    notification and the execution-failure notification, [executeToolCall]
    returns (it does not throw) a result with [allowed = true] and
    [result = {success: false, error: <the message of the executor's error>}];
    the execution-failure notification is sent exactly once and the executor
    is invoked exactly once. *)
Theorem executeToolCall_executor_failure {S : Type} `{IAuditLogger S}
  (unicodeUpper : N -> N) (w : World S) (tool action : jsstring)
  (severity : OperationSeverity) (caller : CallerIdentity) (error : Thrown)
  (args metadata : option JsValue) :
  let context := contextIn w tool action severity caller args metadata in
  let decision := decisionIn unicodeUpper w context in
  dec_effect decision = ALLOW ->
  (logToolCall context decision (auditLogger w)).1 = Return tt ->
  (logExecutionFailure context (errorMessageOf error)
     (logToolCall context decision (auditLogger w)).2).1 = Return tt ->
  exists w',
    executeToolCall unicodeUpper tool action severity caller (Throw error)
      args metadata w
    = (Return {| allowed := true; gr_decision := decision;
                 gr_approvalToken := None; gr_context := context;
                 gr_result :=
                   Some {| er_success := false; er_output := None;
                           er_error := Some (errorMessageOf error) |} |}, w')
    /\ journal w'
       = journal w ++ [Notified (NToolCall context decision); ExecutorInvoked;
                       Notified (NExecutionFailure context (errorMessageOf error))]
    /\ count isExecutionFailure (journal w')
       = Datatypes.S (count isExecutionFailure (journal w))
    /\ count isInvocation (journal w')
       = Datatypes.S (count isInvocation (journal w)).
Proof.
  intros context decision Heff Hlog Hfail.
  unfold executeToolCall, bind.
  rewrite (evaluateToolCall_allow unicodeUpper w tool action severity caller
             args metadata Heff Hlog).
  fold context decision. simpl.
  unfold tryCatch, bind, invoke, callSink, withParts, ret, withResult. simpl.
  destruct (logExecutionFailure context (errorMessageOf error)
              (logToolCall context decision (auditLogger w)).2) as [c logger] eqn:El.
  simpl in Hfail. subst c.
  eexists. split; [reflexivity|]. simpl.
  rewrite <- !app_assoc. simpl. split; [reflexivity|].
  rewrite !count_app. unfold count. simpl. split; lia.
Qed.

Lemma executeToolCall_executor_failure_witness :
  exists w',
    executeToolCall noUpper (js "jira") (js "search_issues") SAFE testCaller
      (Throw boom) None None mockWorld
    = (Return {| allowed := true;
                 gr_decision :=
                   decisionIn noUpper mockWorld
                     (contextIn mockWorld (js "jira") (js "search_issues") SAFE
                        testCaller None None);
                 gr_approvalToken := None;
                 gr_context :=
                   contextIn mockWorld (js "jira") (js "search_issues") SAFE
                     testCaller None None;
                 gr_result :=
                   Some {| er_success := false; er_output := None;
                           er_error := Some (js "boom") |} |}, w')
    /\ journal w'
       = journal mockWorld ++
         [Notified (NToolCall
            (contextIn mockWorld (js "jira") (js "search_issues") SAFE
               testCaller None None)
            (decisionIn noUpper mockWorld
               (contextIn mockWorld (js "jira") (js "search_issues") SAFE
                  testCaller None None)));
          ExecutorInvoked;
          Notified (NExecutionFailure
            (contextIn mockWorld (js "jira") (js "search_issues") SAFE
               testCaller None None) (js "boom"))]
    /\ count isExecutionFailure (journal w')
       = Datatypes.S (count isExecutionFailure (journal mockWorld))
    /\ count isInvocation (journal w')
       = Datatypes.S (count isInvocation (journal mockWorld)).
Proof.
  apply (executeToolCall_executor_failure noUpper mockWorld (js "jira")
           (js "search_issues") SAFE testCaller boom None None);
    vm_compute; reflexivity.
Defined.

(** C4 as stated fails: on an Allow decision with an executor that throws
    "boom", a sink that rejects the execution-failure notification makes
    [executeToolCall] throw. *)
Lemma executeToolCall_never_throws_counterexample :
  ~ (forall (S : Type) (L : IAuditLogger S) (unicodeUpper : N -> N)
            (w : World S) (tool action : jsstring)
            (severity : OperationSeverity) (caller : CallerIdentity)
            (error : Thrown) (args metadata : option JsValue),
        dec_effect
          (decisionIn unicodeUpper w
             (contextIn w tool action severity caller args metadata)) = ALLOW ->
        exists r w',
          executeToolCall unicodeUpper tool action severity caller (Throw error)
            args metadata w = (Return r, w')
          /\ allowed r = true
          /\ gr_result r = Some {| er_success := false; er_output := None;
                                   er_error := Some (errorMessageOf error) |}).
Proof.
  intros Hclaim.
  destruct (Hclaim FileLog AuditLogger noUpper fullDiskWorld (js "jira")
              (js "search_issues") SAFE testCaller boom None None)
    as (r & w' & Hrun & _).
  - vm_compute. reflexivity.
  - vm_compute in Hrun. discriminate.
Qed.

Lemma grantApprovalAndExecute_not_found {S : Type} `{IAuditLogger S}
  (w : World S) (token : jsstring) (approver : CallerIdentity)
  (executor : Executor) :
  pendingApprovals (approvalManager w) !! token = None ->
  grantApprovalAndExecute token approver executor w
  = (Throw (ThrownError (js "Approval token not found")),
     withParts w (auditLogger w) (approvalManager w) (entropy w) (journal w)).
Proof.
  intros Hnone.
  unfold grantApprovalAndExecute, bind, approvalManager_grantApproval, grantApproval.
  rewrite Hnone. reflexivity.
Qed.

(** C3, on the code.  [grantApprovalAndExecute("unknown-token", ...)] throws
    an error whose message is "Approval token not found"; that message
    contains neither "failed to grant approval" nor "Failed to grant
    approval".  The executor is not invoked and nothing is notified. *)
Theorem grantApprovalAndExecute_unknown_token :
  grantApprovalAndExecute (js "unknown-token") testApprover
    (Return (JsString (js "success"))) mockWorld
  = (Throw (ThrownError (js "Approval token not found")), mockWorld)
  /\ includes (js "Approval token not found") (js "failed to grant approval") = false
  /\ includes (js "Approval token not found") (js "Failed to grant approval") = false
  /\ count isInvocation (journal mockWorld) = 0%nat.
Proof. repeat split; vm_compute; reflexivity. Qed.

(** * Further properties of the code *)

(** ** The approval store *)

Lemma withStatus_same a : withStatus a (pa_status a) = a.
Proof. now destruct a. Qed.

Lemma createApproval_truthy m context decision ttl now c t :
  dec_approvalToken decision = Some (c :: t) ->
  createApproval m context decision ttl now
  = (Return (length (heap m)),
     {| pendingApprovals := <[c :: t := length (heap m)]> (pendingApprovals m);
        heap := heap m ++ [{| pa_token := c :: t; pa_context := context;
                              pa_decision := decision;
                              pa_createdAt := ValidDate now;
                              pa_expiresAt :=
                                Some (newDate (plusNow now (effectiveTTL m ttl)));
                              pa_status := pending |}];
        defaultTTL := defaultTTL m;
        timers := timers m ++ [(effectiveTTL m ttl, c :: t)] |}).
Proof.
  intros Ht. unfold createApproval, effectiveTTL. rewrite Ht.
  now destruct (truthyNumber ttl).
Qed.

(** X1.  [createApproval] stores a record exactly when the decision carries
    a non-empty token.  Without one it throws and leaves the store as it
    was; with one, [getApproval] of that token then returns a pending
    record with the given context and decision, created at the clock
    reading, and one timer is armed for the token. *)
Theorem createApproval_then_getApproval (m : ApprovalManager)
  (context : ToolCallContext) (decision : PolicyDecision) (ttl : option Z)
  (now : Z) :
  (truthy (dec_approvalToken decision) = false ->
   createApproval m context decision ttl now
   = (Throw (ThrownError (js "Cannot create approval without approval token")), m))
  /\ (forall token : jsstring,
        dec_approvalToken decision = Some token -> token <> [] ->
        exists l a,
          (createApproval m context decision ttl now).1 = Return l
          /\ getApproval (createApproval m context decision ttl now).2 token = Some a
          /\ heap (createApproval m context decision ttl now).2 !! l = Some a
          /\ pa_token a = token /\ pa_context a = context
          /\ pa_decision a = decision /\ pa_createdAt a = ValidDate now
          /\ pa_status a = pending
          /\ timers (createApproval m context decision ttl now).2
             = timers m ++ [(effectiveTTL m ttl, token)]).
Proof.
  split.
  - unfold createApproval, truthy.
    destruct (dec_approvalToken decision) as [[|c t]|]; [reflexivity|discriminate|reflexivity].
  - intros [|c t] Ht Hne; [congruence|].
    rewrite (createApproval_truthy m context decision ttl now c t Ht). simpl.
    eexists _, _. split; [reflexivity|].
    assert ((heap m ++ [{| pa_token := c :: t; pa_context := context;
                           pa_decision := decision; pa_createdAt := ValidDate now;
                           pa_expiresAt :=
                             Some (newDate (plusNow now (effectiveTTL m ttl)));
                           pa_status := pending |}]) !! length (heap m)
            = Some {| pa_token := c :: t; pa_context := context;
                      pa_decision := decision; pa_createdAt := ValidDate now;
                      pa_expiresAt :=
                        Some (newDate (plusNow now (effectiveTTL m ttl)));
                      pa_status := pending |}) as Hl.
    { rewrite lookup_app_r by lia. now rewrite Nat.sub_diag. }
    split.
    { unfold getApproval. simpl. rewrite lookup_insert_eq. simpl. exact Hl. }
    split; [exact Hl|]. simpl. repeat split; reflexivity.
Qed.

Lemma createApproval_then_getApproval_witness :
  createApproval testManager testContext invalidDecision None 1000
  = (Throw (ThrownError (js "Cannot create approval without approval token")),
     testManager)
  /\ exists l a,
    (createApproval testManager testContext testDecision (Some 120000%Z) 1000).1
      = Return l
    /\ getApproval
         (createApproval testManager testContext testDecision (Some 120000%Z) 1000).2
         (js "test-token-001") = Some a
    /\ heap (createApproval testManager testContext testDecision
               (Some 120000%Z) 1000).2 !! l = Some a
    /\ pa_token a = js "test-token-001" /\ pa_context a = testContext
    /\ pa_decision a = testDecision /\ pa_createdAt a = ValidDate 1000
    /\ pa_status a = pending
    /\ timers (createApproval testManager testContext testDecision
                 (Some 120000%Z) 1000).2
       = timers testManager ++ [(effectiveTTL testManager (Some 120000%Z),
                                 js "test-token-001")].
Proof.
  split.
  - apply (proj1 (createApproval_then_getApproval testManager testContext
                    invalidDecision None 1000)). reflexivity.
  - apply (proj2 (createApproval_then_getApproval testManager testContext
                    testDecision (Some 120000%Z) 1000) (js "test-token-001"));
      [reflexivity|discriminate].
Defined.






Lemma pa_token_withStatus a s : pa_token (withStatus a s) = pa_token a.
Proof. reflexivity. Qed.

Lemma tokenConsistent_setStatus m l s :
  tokenConsistent m -> tokenConsistent (setStatus m l s).
Proof.
  intros Hc token l' a. rewrite pendingApprovals_setStatus. intros Ht Ha.
  destruct (decide (l = l')) as [->|Hne].
  - destruct (heap m !! l') as [a0|] eqn:E.
    + rewrite (heap_setStatus_eq m l' a0 s E) in Ha. injection Ha as <-.
      simpl. now apply (Hc token l').
    + unfold setStatus in Ha. rewrite E in Ha. congruence.
  - rewrite heap_setStatus_ne in Ha by exact Hne. now apply (Hc token l').
Qed.

Lemma tokenConsistent_applyOp op m :
  wellFormed m -> tokenConsistent m -> tokenConsistent (applyOp op m).
Proof.
  intros Hwf Hc. destruct op; simpl; try assumption.
  - unfold createApproval.
    destruct (dec_approvalToken decision) as [[|c t]|]; simpl; try assumption.
    intros token l a. simpl. rewrite lookup_insert.
    case_decide as Heq; intros Hl Ha.
    + injection Hl as <-. rewrite lookup_app_r in Ha by lia.
      rewrite Nat.sub_diag in Ha. simpl in Ha. injection Ha as <-. now simpl.
    + destruct (Hwf _ _ Hl) as [a0 Ha0].
      rewrite (lookup_app_l_Some _ _ _ _ Ha0) in Ha. injection Ha as <-.
      now apply (Hc token l).
  - unfold grantApproval.
    destruct (pendingApprovals m !! token); [|assumption].
    destruct (heap m !! n); [|assumption].
    repeat (case_match; simpl); auto using tokenConsistent_setStatus.
  - unfold denyApproval.
    destruct (pendingApprovals m !! token); [|assumption].
    destruct (heap m !! n); [|assumption].
    repeat (case_match; simpl); auto using tokenConsistent_setStatus.
  - unfold expireApproval.
    destruct (pendingApprovals m !! token); [|assumption].
    case_match; auto using tokenConsistent_setStatus.
  - intros token l a. unfold cleanup. simpl.
    intros [Hl _]%map_lookup_filter_Some. now apply (Hc token).
Qed.

Lemma runOps_invariants ops m :
  wellFormed m -> tokenConsistent m ->
  wellFormed (runOps ops m) /\ tokenConsistent (runOps ops m).
Proof.
  revert m. induction ops as [|op ops IH]; intros m Hwf Hc; simpl; [auto|].
  apply IH; [now apply wellFormed_applyOp | now apply tokenConsistent_applyOp].
Qed.

Lemma tokenConsistent_new config : tokenConsistent (newApprovalManager config).
Proof. intros token l a. simpl. now rewrite lookup_empty. Qed.

(** X4.  Invariants of the store.  After any sequence of operations on a new
    manager, every token of the map refers to a record, that record carries
    the token it is stored under, and two different tokens never share a
    record. *)
Theorem store_invariants (config : option ApprovalManagerConfig)
  (ops : list StoreOp) :
  wellFormed (runOps ops (newApprovalManager config))
  /\ tokenConsistent (runOps ops (newApprovalManager config))
  /\ (forall (t1 t2 : jsstring) (l : ref),
        pendingApprovals (runOps ops (newApprovalManager config)) !! t1 = Some l ->
        pendingApprovals (runOps ops (newApprovalManager config)) !! t2 = Some l ->
        t1 = t2).
Proof.
  destruct (runOps_invariants ops (newApprovalManager config)
              (wellFormed_new config) (tokenConsistent_new config)) as [Hwf Hc].
  - split; [exact Hwf|]. split; [exact Hc|].
    intros t1 t2 l H1 H2. destruct (Hwf _ _ H1) as [a Ha].
    now rewrite <- (Hc t1 l a H1 Ha), <- (Hc t2 l a H2 Ha).
Qed.

Lemma getApproval_setStatus_other m (token token' : jsstring) l s :
  wellFormed m -> tokenConsistent m ->
  pendingApprovals m !! token = Some l -> token <> token' ->
  getApproval (setStatus m l s) token' = getApproval m token'.
Proof.
  intros Hwf Hc Ht Hne. unfold getApproval. rewrite pendingApprovals_setStatus.
  destruct (pendingApprovals m !! token') as [l'|] eqn:Ht'; [|reflexivity].
  simpl. apply heap_setStatus_ne. intros ->.
  destruct (Hwf _ _ Ht) as [a Ha].
  apply Hne. now rewrite <- (Hc token l' a Ht Ha), <- (Hc token' l' a Ht' Ha).
Qed.

Lemma applyOp_isolated op m (token' : jsstring) :
  wellFormed m -> tokenConsistent m ->
  isCleanup op = false -> opToken op <> Some token' ->
  getApproval (applyOp op m) token' = getApproval m token'.
Proof.
  intros Hwf Hc Hcl Hop. destruct op; simpl in *; try reflexivity; try discriminate.
  - unfold createApproval.
    destruct (dec_approvalToken decision) as [[|c t]|] eqn:Ed; simpl; try reflexivity.
    unfold getApproval. simpl.
    rewrite lookup_insert_ne by congruence.
    destruct (pendingApprovals m !! token') as [l'|] eqn:Ht'; [|reflexivity].
    simpl. destruct (Hwf _ _ Ht') as [a Ha]. rewrite Ha.
    now apply lookup_app_l_Some.
  - assert (token <> token') as Hne by congruence.
    unfold grantApproval.
    destruct (pendingApprovals m !! token) as [l|] eqn:Ht; [|reflexivity].
    destruct (heap m !! l); [|reflexivity].
    repeat (case_match; simpl); eauto using getApproval_setStatus_other.
  - assert (token <> token') as Hne by congruence.
    unfold denyApproval.
    destruct (pendingApprovals m !! token) as [l|] eqn:Ht; [|reflexivity].
    destruct (heap m !! l); [|reflexivity].
    repeat (case_match; simpl); eauto using getApproval_setStatus_other.
  - assert (token <> token') as Hne by congruence.
    unfold expireApproval.
    destruct (pendingApprovals m !! token) as [l|] eqn:Ht; [|reflexivity].
    case_match; eauto using getApproval_setStatus_other.
Qed.

(** X5.  Isolation.  In a store reached by any sequence of operations, an
    operation about one token (create, get, grant, deny, expire) leaves the
    record stored under every other token exactly as it was. *)
Theorem operations_isolated (config : option ApprovalManagerConfig)
  (ops : list StoreOp) (op : StoreOp) (token' : jsstring) :
  isCleanup op = false -> opToken op <> Some token' ->
  getApproval (applyOp op (runOps ops (newApprovalManager config))) token'
  = getApproval (runOps ops (newApprovalManager config)) token'.
Proof.
  destruct (runOps_invariants ops (newApprovalManager config)
              (wellFormed_new config) (tokenConsistent_new config)) as [Hwf Hc].
  now apply applyOp_isolated.
Qed.

Lemma operations_isolated_witness :
  getApproval
    (applyOp (OpGrant (js "test-token-001") testApprover 2000)
       (runOps twoApprovals (newApprovalManager None))) (js "token-002")
  = getApproval (runOps twoApprovals (newApprovalManager None)) (js "token-002").
Proof.
  apply (operations_isolated None twoApprovals
           (OpGrant (js "test-token-001") testApprover 2000) (js "token-002"));
    [reflexivity | discriminate].
Defined.

Lemma setStatus_object m l0 s l a :
  heap m !! l = Some a ->
  heap (setStatus m l0 s) !! l
  = Some (if decide (l0 = l) then withStatus a s else a).
Proof.
  intros Ha. case_decide as Heq.
  - subst l0. now apply heap_setStatus_eq.
  - now rewrite heap_setStatus_ne.
Qed.

(** X6.  What an operation can do to a stored record.  No operation changes
    the token, context, decision, creation date or expiry date of a record,
    and none removes it from the heap: the record is left as it is, or it
    was pending and only its status is set, to a status other than
    pending. *)
Theorem records_only_change_status (op : StoreOp) (m : ApprovalManager)
  (l : ref) (a : PendingApproval) :
  heap m !! l = Some a ->
  heap (applyOp op m) !! l = Some a
  \/ (pa_status a = pending
      /\ exists s, s <> pending
                   /\ heap (applyOp op m) !! l = Some (withStatus a s)).
Proof.
  intros Ha. destruct op; simpl; auto.
  - left. unfold createApproval.
    destruct (dec_approvalToken decision) as [[|c t]|]; simpl; auto.
    now apply lookup_app_l_Some.
  - unfold grantApproval.
    destruct (pendingApprovals m !! token) as [l0|]; [|auto].
    destruct (heap m !! l0) as [a0|] eqn:H0; [|auto].
    case_bool_decide as Hp; simpl; [|auto].
    destruct (match pa_expiresAt a0 with
              | Some expiresAt => dateLt expiresAt (ValidDate now)
              | None => false
              end); simpl; rewrite (setStatus_object _ _ _ _ _ Ha);
      (case_decide as Heq; [subst l0; right|now left]);
      (split; [congruence|]); eexists; (split; [|reflexivity]); discriminate.
  - unfold denyApproval.
    destruct (pendingApprovals m !! token) as [l0|]; [|auto].
    destruct (heap m !! l0) as [a0|] eqn:H0; [|auto].
    case_bool_decide as Hp; simpl; [|auto].
    rewrite (setStatus_object _ _ _ _ _ Ha).
    case_decide as Heq; [subst l0; right|now left].
    split; [congruence|]. eexists. split; [|reflexivity]. discriminate.
  - unfold expireApproval.
    destruct (pendingApprovals m !! token) as [l0|]; [|auto].
    unfold isPending. destruct (heap m !! l0) as [a0|] eqn:H0; [|auto].
    case_bool_decide as Hp; [|auto].
    rewrite (setStatus_object _ _ _ _ _ Ha).
    case_decide as Heq; [subst l0; right|now left].
    split; [congruence|]. eexists. split; [|reflexivity]. discriminate.
Qed.

Lemma records_only_change_status_witness :
  heap (applyOp (OpDeny (js "test-token-001") testApprover) (managerWith None)) !! 0%nat
    = Some {| pa_token := js "test-token-001"; pa_context := testContext;
              pa_decision := testDecision; pa_createdAt := ValidDate 1000;
              pa_expiresAt := Some (ValidDate 61000); pa_status := pending |}
  \/ (pending = pending
      /\ exists s, s <> pending
           /\ heap (applyOp (OpDeny (js "test-token-001") testApprover)
                      (managerWith None)) !! 0%nat
              = Some (withStatus
                        {| pa_token := js "test-token-001";
                           pa_context := testContext;
                           pa_decision := testDecision;
                           pa_createdAt := ValidDate 1000;
                           pa_expiresAt := Some (ValidDate 61000);
                           pa_status := pending |} s)).
Proof.
  apply (records_only_change_status (OpDeny (js "test-token-001") testApprover)
           (managerWith None) 0%nat
           {| pa_token := js "test-token-001"; pa_context := testContext;
              pa_decision := testDecision; pa_createdAt := ValidDate 1000;
              pa_expiresAt := Some (ValidDate 61000); pa_status := pending |}).
  reflexivity.
Defined.

Lemma removable_spec m cutoff l :
  removable m cutoff l
  = match heap m !! l with
    | Some a =>
      negb (bool_decide (pa_status a = pending)) && dateLt (pa_createdAt a) cutoff
    | None => false
    end.
Proof. reflexivity. Qed.

Lemma pendingApprovals_cleanup m olderThan now :
  pendingApprovals (cleanup m olderThan now).2
  = filter (fun kv : jsstring * ref =>
              removable m (cleanupCutoff olderThan now) kv.2 = false)
           (pendingApprovals m).
Proof. reflexivity. Qed.

Lemma heap_cleanup m olderThan now : heap (cleanup m olderThan now).2 = heap m.
Proof. reflexivity. Qed.

Lemma count_cleanup m olderThan now :
  (cleanup m olderThan now).1
  = (size (pendingApprovals m)
     - size (pendingApprovals (cleanup m olderThan now).2))%nat.
Proof. reflexivity. Qed.

Lemma getApproval_cleanup m olderThan now (token : jsstring) :
  getApproval (cleanup m olderThan now).2 token
  = match getApproval m token with
    | Some a =>
      if negb (bool_decide (pa_status a = pending))
         && dateLt (pa_createdAt a) (cleanupCutoff olderThan now)
      then None else Some a
    | None => None
    end.
Proof.
  unfold getApproval.
  rewrite pendingApprovals_cleanup, heap_cleanup, map_lookup_filter.
  destruct (pendingApprovals m !! token) as [l|]; [|reflexivity].
  pose proof (removable_spec m (cleanupCutoff olderThan now) l) as Hrem.
  cbn [mbind option_bind].
  destruct (heap m !! l) as [a|] eqn:Ha.
  - destruct (negb (bool_decide (pa_status a = pending))
              && dateLt (pa_createdAt a) (cleanupCutoff olderThan now)) eqn:E.
    + rewrite option_guard_False by (cbn [snd]; rewrite Hrem; discriminate).
      reflexivity.
    + rewrite option_guard_True by exact Hrem. cbn [mbind option_bind]. exact Ha.
  - rewrite option_guard_True by exact Hrem. cbn [mbind option_bind]. exact Ha.
Qed.

(** X7.  [cleanup] removes exactly the records whose status is not pending
    and whose creation date is strictly before the cutoff (the [olderThan]
    argument, or 24 hours before the clock reading).  A pending record is
    never removed, whatever its age.  The number returned is the number of
    tokens removed, and a second [cleanup] with the same cutoff removes
    nothing. *)
Theorem cleanup_removes_old_decided (m : ApprovalManager)
  (olderThan : option Date) (now : Z) :
  (forall token : jsstring,
     getApproval (cleanup m olderThan now).2 token
     = match getApproval m token with
       | Some a =>
         if negb (bool_decide (pa_status a = pending))
            && dateLt (pa_createdAt a) (cleanupCutoff olderThan now)
         then None else Some a
       | None => None
       end)
  /\ (forall (token : jsstring) (a : PendingApproval),
        getApproval m token = Some a -> pa_status a = pending ->
        getApproval (cleanup m olderThan now).2 token = Some a)
  /\ ((cleanup m olderThan now).1
      + size (pendingApprovals (cleanup m olderThan now).2)
      = size (pendingApprovals m))%nat
  /\ heap (cleanup m olderThan now).2 = heap m
  /\ (cleanup (cleanup m olderThan now).2 olderThan now).1 = 0%nat.
Proof.
  split; [apply getApproval_cleanup|]. split; [|split; [|split]].
  - intros token a Hget Hp. rewrite getApproval_cleanup, Hget.
    now rewrite bool_decide_eq_true_2.
  - rewrite count_cleanup.
    pose proof (map_filter_subseteq
                  (fun kv : jsstring * ref =>
                     removable m (cleanupCutoff olderThan now) kv.2 = false)
                  (pendingApprovals m)) as Hsub.
    apply map_subseteq_size in Hsub.
    rewrite pendingApprovals_cleanup. lia.
  - apply heap_cleanup.
  - rewrite count_cleanup, !pendingApprovals_cleanup.
    rewrite map_filter_filter_r; [lia|].
    intros i x _ Hx. cbn [snd] in *.
    rewrite !removable_spec in *. now rewrite heap_cleanup.
Qed.

Lemma cleanup_removes_old_decided_witness :
  getApproval oneGrantedOnePending (js "token-002") = Some secondRecord
  /\ getApproval (cleanup oneGrantedOnePending (Some (ValidDate 5000)) 6000).2
       (js "token-002") = Some secondRecord
  /\ getApproval (cleanup oneGrantedOnePending (Some (ValidDate 5000)) 6000).2
       (js "test-token-001") = None
  /\ (cleanup oneGrantedOnePending (Some (ValidDate 5000)) 6000).1 = 1%nat.
Proof.
  destruct (cleanup_removes_old_decided oneGrantedOnePending
              (Some (ValidDate 5000)) 6000) as (Hall & Hpending & _).
  split; [reflexivity|]. split; [|split].
  - apply (Hpending (js "token-002") secondRecord); reflexivity.
  - rewrite (Hall (js "test-token-001")). reflexivity.
  - vm_compute. reflexivity.
Defined.

Lemma elem_of_listPendingApprovals (m : ApprovalManager) (l : ref) :
  l ∈ listPendingApprovals m
  <-> exists (token : jsstring) (a : PendingApproval),
        pendingApprovals m !! token = Some l
        /\ heap m !! l = Some a /\ pa_status a = pending.
Proof.
  unfold listPendingApprovals.
  rewrite list_elem_of_filter, list_elem_of_fmap. unfold isPending. split.
  - intros [Hp ([token l'] & -> & Hin)]. apply elem_of_map_to_list in Hin.
    simpl in *. destruct (heap m !! l') as [a|]; [|discriminate].
    apply bool_decide_eq_true in Hp. eauto.
  - intros (token & a & Ht & Ha & Hp). split.
    + rewrite Ha. now apply bool_decide_eq_true.
    + exists (token, l). split; [reflexivity|]. now apply elem_of_map_to_list.
Qed.

(** X8.  In a store reached by any sequence of operations,
    [listPendingApprovals] lists exactly the records that are stored under
    some token and are pending, each of them once. *)
Theorem listPendingApprovals_spec (config : option ApprovalManagerConfig)
  (ops : list StoreOp) :
  (forall l : ref,
     l ∈ listPendingApprovals (runOps ops (newApprovalManager config))
     <-> exists (token : jsstring) (a : PendingApproval),
           pendingApprovals (runOps ops (newApprovalManager config)) !! token
             = Some l
           /\ heap (runOps ops (newApprovalManager config)) !! l = Some a
           /\ pa_status a = pending)
  /\ NoDup (listPendingApprovals (runOps ops (newApprovalManager config))).
Proof.
  split; [intros l; apply elem_of_listPendingApprovals|].
  destruct (runOps_invariants ops (newApprovalManager config)
              (wellFormed_new config) (tokenConsistent_new config)) as [Hwf Hc].
  unfold listPendingApprovals. apply NoDup_filter.
  apply NoDup_fmap_2_strong; [|apply NoDup_map_to_list].
  intros [t1 l1] [t2 l2] H1 H2 Heq. simpl in Heq. subst l2.
  apply elem_of_map_to_list in H1, H2.
  destruct (Hwf _ _ H1) as [a Ha].
  now rewrite <- (Hc t1 l1 a H1 Ha), <- (Hc t2 l1 a H2 Ha).
Qed.

(** X9.  The timer callback [expireApproval] sets a pending record to
    expired and is otherwise without effect (unknown token, or record
    already decided).  Once it has fired on a pending record, [grantApproval]
    and [denyApproval] both fail with "Approval is already expired", at any
    clock reading, and a second firing changes nothing. *)
Theorem expireApproval_spec (m : ApprovalManager) (token : jsstring) :
  (pendingApprovals m !! token = None -> expireApproval m token = m)
  /\ (forall (l : ref) (a : PendingApproval),
        pendingApprovals m !! token = Some l -> heap m !! l = Some a ->
        pa_status a <> pending -> expireApproval m token = m)
  /\ (forall (l : ref) (a : PendingApproval),
        pendingApprovals m !! token = Some l -> heap m !! l = Some a ->
        pa_status a = pending ->
        getApproval (expireApproval m token) token = Some (withStatus a expired)
        /\ (forall (who : CallerIdentity) (now : Z),
              grantApproval (expireApproval m token) token who now
              = (failure (js "Approval is already expired"),
                 expireApproval m token))
        /\ (forall who : CallerIdentity,
              denyApproval (expireApproval m token) token who
              = (failure (js "Approval is already expired"),
                 expireApproval m token))
        /\ expireApproval (expireApproval m token) token = expireApproval m token).
Proof.
  split; [|split].
  - intros Hn. unfold expireApproval. now rewrite Hn.
  - intros l a Ht Ha Hs. unfold expireApproval, isPending. rewrite Ht, Ha.
    now rewrite bool_decide_eq_false_2.
  - intros l a Ht Ha Hs.
    assert (expireApproval m token = setStatus m l expired) as ->.
    { unfold expireApproval, isPending. rewrite Ht, Ha.
      now rewrite bool_decide_eq_true_2. }
    assert (pendingApprovals (setStatus m l expired) !! token = Some l) as Ht'
      by now rewrite pendingApprovals_setStatus.
    pose proof (heap_setStatus_eq m l a expired Ha) as Ha'.
    split; [now apply getApproval_setStatus|]. split; [|split].
    + intros who now.
      now rewrite (grantApproval_decided _ token l (withStatus a expired) who now
                     Ht' Ha').
    + intros who.
      now rewrite (denyApproval_decided _ token l (withStatus a expired) who
                     Ht' Ha').
    + unfold expireApproval, isPending. rewrite Ht', Ha'.
      now rewrite bool_decide_eq_false_2.
Qed.

Lemma expireApproval_spec_witness :
  expireApproval testManager (js "test-token-001") = testManager
  /\ expireApproval grantedManager (js "test-token-001") = grantedManager
  /\ grantApproval (expireApproval (managerWith None) (js "test-token-001"))
       (js "test-token-001") testApprover 1001
     = (failure (js "Approval is already expired"),
        expireApproval (managerWith None) (js "test-token-001")).
Proof.
  destruct (expireApproval_spec testManager (js "test-token-001"))
    as (Hnone & _ & _).
  destruct (expireApproval_spec grantedManager (js "test-token-001"))
    as (_ & Hdecided & _).
  destruct (expireApproval_spec (managerWith None) (js "test-token-001"))
    as (_ & _ & Hpending).
  split; [apply Hnone; reflexivity|]. split.
  - apply (Hdecided 0%nat grantedRecord); [reflexivity|reflexivity|discriminate].
  - destruct (Hpending 0%nat
                {| pa_token := js "test-token-001"; pa_context := testContext;
                   pa_decision := testDecision; pa_createdAt := ValidDate 1000;
                   pa_expiresAt := Some (ValidDate 61000); pa_status := pending |}
                eq_refl eq_refl eq_refl) as (_ & Hgrant & _).
    apply Hgrant.
Defined.

(** X10.  On a pending record whose [expiresAt] has passed, the outcome of a
    denial depends on what came before: a denial succeeds (and a later grant
    then fails with "Approval is already denied"), but after a grant has
    been attempted, the same denial fails with "Approval is already
    expired". *)
Theorem deny_after_expired_grant (m : ApprovalManager) (token : jsstring)
  (l : ref) (a : PendingApproval) (granter denier : CallerIdentity) (now t : Z) :
  pendingApprovals m !! token = Some l -> heap m !! l = Some a ->
  pa_status a = pending ->
  pa_expiresAt a = Some (ValidDate t) -> (t < now)%Z ->
  (denyApproval m token denier).1 = succeeded l
  /\ (grantApproval (denyApproval m token denier).2 token granter now).1
     = failure (js "Approval is already denied")
  /\ (denyApproval (grantApproval m token granter now).2 token denier).1
     = failure (js "Approval is already expired").
Proof.
  intros Ht Ha Hs He Hlt.
  rewrite (denyApproval_pending m token l a denier Ht Ha Hs).
  rewrite (grantApproval_pending_expired m token l a granter now Ht Ha Hs)
    by (exists (ValidDate t); split; [exact He|simpl; now apply Z.ltb_lt]).
  simpl. split; [reflexivity|]. split.
  - rewrite (grantApproval_decided _ token l (withStatus a denied) granter now);
      [reflexivity | now rewrite pendingApprovals_setStatus
       | now apply heap_setStatus_eq | discriminate].
  - rewrite (denyApproval_decided _ token l (withStatus a expired) denier);
      [reflexivity | now rewrite pendingApprovals_setStatus
       | now apply heap_setStatus_eq | discriminate].
Qed.

Lemma deny_after_expired_grant_witness :
  (denyApproval (managerWith (Some 10%Z)) (js "test-token-001") testApprover).1
    = succeeded 0%nat
  /\ (grantApproval
        (denyApproval (managerWith (Some 10%Z)) (js "test-token-001") testApprover).2
        (js "test-token-001") testApprover 1050).1
     = failure (js "Approval is already denied")
  /\ (denyApproval
        (grantApproval (managerWith (Some 10%Z)) (js "test-token-001")
           testApprover 1050).2 (js "test-token-001") testApprover).1
     = failure (js "Approval is already expired").
Proof.
  apply (deny_after_expired_grant (managerWith (Some 10%Z)) (js "test-token-001")
           0%nat shortLivedRecord testApprover testApprover 1050 1010);
    reflexivity.
Defined.

(** ** The policy engine *)

Section GlobFacts.

Variable unicodeUpper : N -> N.

Lemma GlobMatch_refl p : GlobMatch unicodeUpper notLineTerminator p p.
Proof.
  induction p as [|c p IH]; [constructor|].
  destruct (N.eq_dec c 42) as [->|Hc].
  - apply (glob_star unicodeUpper notLineTerminator [42] p p); [reflexivity|exact IH].
  - now constructor.
Qed.

Lemma GlobMatch_prefix prefix v :
  hasStar prefix = false ->
  GlobMatch unicodeUpper notLineTerminator (prefix ++ [42]) v
  <-> exists pre rest,
        v = pre ++ rest /\ ciEqual unicodeUpper pre prefix
        /\ forallb notLineTerminator rest = true.
Proof.
  unfold ciEqual. revert v. induction prefix as [|c p IH]; intros v Hp.
  - simpl. rewrite GlobMatch_star_inv. split.
    + intros (run & v' & -> & Hrun & Hnil). inversion Hnil; subst.
      exists [], run. rewrite app_nil_r. auto.
    + intros (pre & rest & -> & Hpre & Hrest).
      destruct pre; [|discriminate]. exists rest, []. rewrite app_nil_r.
      repeat split; [exact Hrest|constructor].
  - unfold hasStar in Hp. cbn [existsb] in Hp.
    apply orb_false_iff in Hp as [Hc Hp].
    apply N.eqb_neq in Hc. fold (hasStar p) in Hp.
    change ((c :: p) ++ [42]) with (c :: (p ++ [42])). split.
    + inversion 1; subst; [|congruence].
      match goal with H : GlobMatch _ _ (p ++ [42]) _ |- _ =>
        apply IH in H; [|exact Hp]; destruct H as (pre & rest & -> & Hpre & Hrest)
      end.
      exists (d :: pre), rest. simpl. repeat split; [|exact Hrest].
      f_equal; [congruence|exact Hpre].
    + intros (pre & rest & -> & Hpre & Hrest).
      destruct pre as [|d pre]; [discriminate|]. simpl in Hpre.
      injection Hpre as Hd Hpre. simpl. constructor; [congruence|congruence|].
      apply IH; [exact Hp|]. eauto.
Qed.

Lemma asciiUpper_canon c :
  RegExp.Canonicalize unicodeUpper (RegExp.asciiUpper c)
  = RegExp.Canonicalize unicodeUpper c.
Proof.
  unfold RegExp.Canonicalize, RegExp.asciiUpper.
  destruct (N.leb_spec 97 c), (N.leb_spec c 122); simpl;
    repeat match goal with
           | |- context [N.ltb ?a ?b] => destruct (N.ltb_spec a b)
           | |- context [N.leb ?a ?b] => destruct (N.leb_spec a b)
           end; simpl; try lia; try reflexivity.
Qed.

Lemma asciiUpper_lineTerminator c :
  notLineTerminator (RegExp.asciiUpper c) = notLineTerminator c.
Proof.
  unfold notLineTerminator, RegExp.isLineTerminator, RegExp.asciiUpper.
  destruct (N.leb_spec 97 c), (N.leb_spec c 122); simpl; try reflexivity.
  repeat match goal with
         | |- context [N.eqb ?a ?b] => destruct (N.eqb_spec a b)
         end; simpl; try lia; reflexivity.
Qed.

Lemma asciiUpper_star c : RegExp.asciiUpper c = 42 <-> c = 42.
Proof.
  unfold RegExp.asciiUpper.
  destruct (N.leb_spec 97 c), (N.leb_spec c 122); simpl; lia.
Qed.

Lemma forallb_toUpperAscii run :
  forallb notLineTerminator (toUpperAscii run) = forallb notLineTerminator run.
Proof.
  induction run as [|c run IH]; [reflexivity|]. simpl.
  now rewrite asciiUpper_lineTerminator, IH.
Qed.

Lemma GlobMatch_upper_value p v :
  GlobMatch unicodeUpper notLineTerminator p (toUpperAscii v)
  <-> GlobMatch unicodeUpper notLineTerminator p v.
Proof.
  revert v. induction p as [|c p IH]; intros v.
  - split; inversion 1.
    + destruct v; [constructor|discriminate].
    + constructor.
  - destruct (N.eq_dec c 42) as [->|Hc].
    + rewrite !GlobMatch_star_inv. split.
      * intros (run & v' & Hv & Hrun & Hm).
        unfold toUpperAscii in Hv.
        change (map RegExp.asciiUpper v) with (RegExp.asciiUpper <$> v) in Hv.
        apply fmap_app_inv in Hv as (r0 & v0 & -> & -> & ->).
        exists r0, v0. split; [reflexivity|].
        split; [now rewrite <- forallb_toUpperAscii|]. now apply IH.
      * intros (run & v' & -> & Hrun & Hm).
        exists (toUpperAscii run), (toUpperAscii v').
        split; [apply map_app|].
        split; [now rewrite forallb_toUpperAscii|]. now apply IH.
    + split.
      * destruct v as [|d v]; [intros H; inversion H; subst; congruence|].
        simpl. inversion 1; subst; [|congruence].
        constructor; [assumption| |now apply IH].
        now rewrite <- (asciiUpper_canon d).
      * inversion 1; subst; [|congruence]. simpl.
        constructor; [assumption| |now apply IH].
        now rewrite asciiUpper_canon.
Qed.

Lemma GlobMatch_upper_pattern p v :
  GlobMatch unicodeUpper notLineTerminator (toUpperAscii p) v
  <-> GlobMatch unicodeUpper notLineTerminator p v.
Proof.
  revert v. induction p as [|c p IH]; intros v; [reflexivity|].
  simpl. destruct (N.eq_dec c 42) as [->|Hc].
  - change (RegExp.asciiUpper 42) with 42.
    rewrite !GlobMatch_star_inv. split;
      intros (run & v' & -> & Hrun & Hm); exists run, v';
      (split; [reflexivity|]); (split; [exact Hrun|]); now apply IH.
  - assert (RegExp.asciiUpper c <> 42) as Hc' by now rewrite asciiUpper_star.
    split; inversion 1; subst; try congruence.
    + constructor; [assumption| |now apply IH].
      now rewrite <- (asciiUpper_canon c).
    + constructor; [assumption| |now apply IH].
      now rewrite asciiUpper_canon.
Qed.

End GlobFacts.

Lemma bool_eq_iff (a b : bool) : (a = true <-> b = true) -> a = b.
Proof. destruct a, b; intuition congruence. Qed.

(** X11.  Every pattern matches itself, whatever characters it contains:
    the characters that are special in a regular expression are taken
    literally, and a [*] of the value is matched by the [*] of the
    pattern. *)
Theorem matchesPattern_reflexive (unicodeUpper : N -> N) (pattern : jsstring) :
  matchesPattern unicodeUpper pattern pattern = true.
Proof. apply matchesPattern_GlobMatch, GlobMatch_refl. Qed.

(** X12.  A prefix glob: for a prefix without [*], the pattern [prefix*]
    matches exactly the values that start with the prefix, up to case, and
    have no line terminator after it. *)
Theorem matchesPattern_prefix_glob (unicodeUpper : N -> N)
  (value prefix : jsstring) :
  hasStar prefix = false ->
  (matchesPattern unicodeUpper value (prefix ++ [42]) = true
   <-> exists pre rest,
         value = pre ++ rest /\ ciEqual unicodeUpper pre prefix
         /\ forallb notLineTerminator rest = true).
Proof.
  intros Hp. rewrite matchesPattern_GlobMatch. now apply GlobMatch_prefix.
Qed.

Lemma matchesPattern_prefix_glob_witness :
  matchesPattern noUpper (js "Delete_Pod") (js "delete_" ++ [42]) = true
  <-> exists pre rest,
        js "Delete_Pod" = pre ++ rest /\ ciEqual noUpper pre (js "delete_")
        /\ forallb notLineTerminator rest = true.
Proof.
  apply (matchesPattern_prefix_glob noUpper (js "Delete_Pod") (js "delete_")).
  reflexivity.
Defined.

(** X13.  Matching does not depend on the case of ASCII letters, neither in
    the value nor in the pattern. *)
Theorem matchesPattern_ascii_case (unicodeUpper : N -> N)
  (value pattern : jsstring) :
  matchesPattern unicodeUpper (toUpperAscii value) pattern
  = matchesPattern unicodeUpper value pattern
  /\ matchesPattern unicodeUpper value (toUpperAscii pattern)
     = matchesPattern unicodeUpper value pattern.
Proof.
  split; apply bool_eq_iff; rewrite !matchesPattern_GlobMatch.
  - apply GlobMatch_upper_value.
  - apply GlobMatch_upper_pattern.
Qed.

(** X14.  Minimum severity is a threshold: a rule without custom predicate
    that matches a call also matches the same call at any higher
    severity. *)
Theorem matchesRule_severity_monotone (unicodeUpper : N -> N)
  (context : ToolCallContext) (rule : PolicyRule) (severity : OperationSeverity) :
  match_custom (rule_match rule) = None ->
  (SEVERITY_ORDER (ctx_severity context) <= SEVERITY_ORDER severity)%Z ->
  matchesRule unicodeUpper context rule = true ->
  matchesRule unicodeUpper (withSeverity context severity) rule = true.
Proof.
  intros Hcustom Hle. rewrite !matchesRule_satisfied.
  intros (Ht & Ha & Hs & Hk & Hf). repeat split; simpl; auto.
  - intros s Hsome. specialize (Hs s Hsome). lia.
  - intros f Hsome. congruence.
Qed.

Lemma matchesRule_severity_monotone_witness :
  matchesRule noUpper (withSeverity (jiraSearch MEDIUM) CRITICAL) fromMedium = true.
Proof.
  apply (matchesRule_severity_monotone noUpper (jiraSearch MEDIUM) fromMedium
           CRITICAL); [reflexivity | vm_compute; discriminate | reflexivity].
Defined.

(** X15.  What the default policy decides.  SAFE and LOW calls are allowed,
    MEDIUM and HIGH calls need review, a CRITICAL call is denied when its
    action matches "delete_*" and needs review otherwise.  Every decision
    comes from a rule: the default effect of the policy is never used. *)
Theorem createDefaultPolicy_decisions (unicodeUpper : N -> N)
  (context : ToolCallContext) (g : Rng) :
  (dec_effect (evaluatePolicy unicodeUpper createDefaultPolicy context g).1,
   dec_rule (evaluatePolicy unicodeUpper createDefaultPolicy context g).1)
  = match ctx_severity context with
    | SAFE | LOW => (ALLOW, Some (js "allow-safe-reads"))
    | MEDIUM => (REVIEW, Some (js "review-medium-writes"))
    | HIGH => (REVIEW, Some (js "review-high-risk"))
    | CRITICAL =>
      if matchesPattern unicodeUpper (ctx_action context) (js "delete_*")
      then (DENY, Some (js "deny-critical-delete"))
      else (REVIEW, Some (js "review-high-risk"))
    end.
Proof.
  assert (forall b : bool,
            matchesPattern unicodeUpper (ctx_action context) (js "delete_*") = b ->
            matchesRule unicodeUpper context
              {| rule_id := js "deny-critical-delete";
                 rule_description := Some (js "Deny critical delete operations");
                 rule_match := {| match_tool := None;
                                  match_action := Some (js "delete_*");
                                  match_minSeverity := Some CRITICAL;
                                  match_callerType := None;
                                  match_custom := None |};
                 rule_effect := DENY;
                 rule_reason :=
                   Some (js "Critical delete operations are not allowed") |}
            = b && bool_decide (ctx_severity context = CRITICAL)) as Hfirst.
  { intros b Hb. unfold matchesRule.
    change (js "delete_*") with (100 :: js "elete_*") in *.
    cbn [rule_match match_tool match_action match_minSeverity match_callerType
         match_custom].
    rewrite Hb.
    destruct b; destruct (ctx_severity context); reflexivity. }
  unfold evaluatePolicy, createDefaultPolicy. cbn [rules evaluateRules].
  rewrite (Hfirst _ eq_refl).
  destruct (matchesPattern unicodeUpper (ctx_action context) (js "delete_*"));
    destruct (ctx_severity context) eqn:Es; simpl;
    unfold matchesRule; simpl; rewrite ?Es; reflexivity.
Qed.

Lemma getDefaultReason_nonempty effect rule : getDefaultReason effect rule <> [].
Proof. destruct effect; discriminate. Qed.

Lemma orElse_nonempty o d : d <> [] -> orElse o d <> [].
Proof. destruct o as [[|c s]|]; simpl; auto; discriminate. Qed.

(** X16.  Every decision carries a reason that is not empty: the explicit
    reason of the rule or of the policy when it is not empty, a synthesized
    sentence otherwise. *)
Theorem evaluatePolicy_reason_nonempty (unicodeUpper : N -> N)
  (config : PolicyConfig) (context : ToolCallContext) (g : Rng) :
  dec_reason (evaluatePolicy unicodeUpper config context g).1 <> [].
Proof.
  unfold evaluatePolicy. induction (rules config) as [|rule rs IH]; simpl.
  - unfold defaultDecision. case_bool_decide; simpl;
      apply orElse_nonempty, getDefaultReason_nonempty.
  - destruct (matchesRule unicodeUpper context rule); [|exact IH].
    unfold ruleDecision. case_bool_decide; simpl;
      apply orElse_nonempty, getDefaultReason_nonempty.
Qed.

Lemma evaluatePolicy_draw unicodeUpper config context g :
  (dec_effect (evaluatePolicy unicodeUpper config context g).1 = REVIEW
   /\ dec_approvalToken (evaluatePolicy unicodeUpper config context g).1
      = Some (g 0%nat)
   /\ (evaluatePolicy unicodeUpper config context g).2 = (uuidv4 g).2)
  \/ (dec_effect (evaluatePolicy unicodeUpper config context g).1 <> REVIEW
      /\ dec_approvalToken (evaluatePolicy unicodeUpper config context g).1 = None
      /\ (evaluatePolicy unicodeUpper config context g).2 = g).
Proof.
  unfold evaluatePolicy. induction (rules config) as [|rule rs IH]; simpl.
  - unfold defaultDecision. case_bool_decide; simpl; [left|right]; auto.
  - destruct (matchesRule unicodeUpper context rule); [|exact IH].
    unfold ruleDecision. case_bool_decide; simpl; [left|right]; auto.
Qed.

(** X17.  Tokens are consecutive draws of the uuid source.  A decision
    draws one uuid when its effect is Review and none otherwise; so when
    two evaluations in a row both need review, the first token is the first
    string of the source and the second token the next one. *)
Theorem evaluatePolicy_tokens_in_sequence (unicodeUpper : N -> N)
  (config1 config2 : PolicyConfig) (context1 context2 : ToolCallContext)
  (g : Rng) :
  let first := evaluatePolicy unicodeUpper config1 context1 g in
  let second := evaluatePolicy unicodeUpper config2 context2 first.2 in
  (dec_effect first.1 <> REVIEW -> first.2 = g)
  /\ (dec_effect first.1 = REVIEW ->
      dec_approvalToken first.1 = Some (g 0%nat)
      /\ (dec_effect second.1 = REVIEW ->
          dec_approvalToken second.1 = Some (g 1%nat))).
Proof.
  intros first second. subst first second.
  destruct (evaluatePolicy_draw unicodeUpper config1 context1 g)
    as [(He & Ht & Hg)|(He & Ht & Hg)].
  - split; [congruence|]. intros _. split; [exact Ht|]. intros He2.
    destruct (evaluatePolicy_draw unicodeUpper config2 context2
                (evaluatePolicy unicodeUpper config1 context1 g).2)
      as [(_ & Ht2 & _)|(He2' & _)]; [|congruence].
    rewrite Ht2, Hg. reflexivity.
  - split; [intros _; exact Hg|]. congruence.
Qed.

Lemma evaluatePolicy_tokens_in_sequence_witness :
  dec_approvalToken
    (evaluatePolicy noUpper createDefaultPolicy (jiraSearch HIGH) tokens).1
    = Some (js "token-0")
  /\ dec_approvalToken
       (evaluatePolicy noUpper createDefaultPolicy (deleteDb MEDIUM)
          (evaluatePolicy noUpper createDefaultPolicy (jiraSearch HIGH) tokens).2).1
     = Some (js "token-1").
Proof.
  destruct (evaluatePolicy_tokens_in_sequence noUpper createDefaultPolicy
              createDefaultPolicy (jiraSearch HIGH) (deleteDb MEDIUM) tokens)
    as (_ & Hreview).
  destruct (Hreview eq_refl) as (H1 & H2).
  split; [exact H1|]. apply H2. reflexivity.
Defined.

(** ** The orchestrator *)


Section Orchestrator.

Variable unicodeUpper : N -> N.
Context {S : Type} `{IAuditLogger S}.

(** [evaluateToolCall], step by step. *)
Lemma evaluateToolCall_steps (w : World S) tool action severity caller args
  metadata :
  let context := contextIn w tool action severity caller args metadata in
  let decision := decisionIn unicodeUpper w context in
  evaluateToolCall unicodeUpper tool action severity caller args metadata w
  = match (logToolCall context decision (auditLogger w)).1 with
    | Throw e => (Throw e, loggedWorld unicodeUpper w context)
    | Return _ =>
      match dec_effect decision with
      | ALLOW =>
        (Return {| allowed := true; gr_decision := decision;
                   gr_approvalToken := None; gr_context := context;
                   gr_result := None |}, loggedWorld unicodeUpper w context)
      | DENY =>
        (Return {| allowed := false; gr_decision := decision;
                   gr_approvalToken := None; gr_context := context;
                   gr_result := None |}, loggedWorld unicodeUpper w context)
      | REVIEW =>
        bind (approvalManager_createApproval context decision)
          (fun l => bind (deref l)
             (fun approval =>
                ret {| allowed := false; gr_decision := decision;
                       gr_approvalToken := Some (pa_token approval);
                       gr_context := context; gr_result := None |}))
          (loggedWorld unicodeUpper w context)
      end
    end.
Proof.
  intros context decision. subst decision context.
  unfold loggedWorld, contextIn, decisionIn.
  unfold evaluateToolCall, bind at 1 2 3 4, drawUuid, today,
    policyEngine_evaluatePolicy, callSink, withParts, ret.
  simpl.
  destruct (evaluatePolicy unicodeUpper (policy w) _ _) as [d g] eqn:Ed.
  simpl.
  destruct (logToolCall _ d (auditLogger w)) as [c logger] eqn:El.
  simpl. destruct c as [[]|e]; [|reflexivity].
  destruct (dec_effect d); reflexivity.
Qed.

Lemma evaluateToolCall_refused (w : World S) tool action severity caller args
  metadata r w' :
  dec_effect (decisionIn unicodeUpper w
                (contextIn w tool action severity caller args metadata)) <> ALLOW ->
  evaluateToolCall unicodeUpper tool action severity caller args metadata w
  = (Return r, w') ->
  allowed r = false.
Proof.
  intros Hne. rewrite evaluateToolCall_steps.
  destruct (logToolCall _ _ _).1 as [[]|e]; [|discriminate].
  destruct (dec_effect _); [congruence | now intros [= <- _] |].
  unfold bind, approvalManager_createApproval, deref, ret.
  destruct (createApproval _ _ _ _ _) as [[l|e] m]; [|discriminate].
  simpl. destruct (heap m !! l); [now intros [= <- _]|discriminate].
Qed.

End Orchestrator.

(** X18.  A call that is not allowed never reaches the executor: when the
    policy decision is not Allow, [executeToolCall] does exactly what
    [evaluateToolCall] does, with the same result and the same effects,
    whatever the executor is. *)
Theorem executeToolCall_not_allowed {S : Type} `{IAuditLogger S}
  (unicodeUpper : N -> N) (w : World S) (tool action : jsstring)
  (severity : OperationSeverity) (caller : CallerIdentity) (executor : Executor)
  (args metadata : option JsValue) :
  dec_effect (decisionIn unicodeUpper w
                (contextIn w tool action severity caller args metadata)) <> ALLOW ->
  executeToolCall unicodeUpper tool action severity caller executor args metadata w
  = evaluateToolCall unicodeUpper tool action severity caller args metadata w.
Proof.
  intros Hne. unfold executeToolCall, bind.
  destruct (evaluateToolCall unicodeUpper tool action severity caller args
              metadata w) as [[r|e] w'] eqn:Ee; [|reflexivity].
  rewrite (evaluateToolCall_refused unicodeUpper w tool action severity caller
             args metadata r w' Hne Ee).
  reflexivity.
Qed.

Lemma executeToolCall_not_allowed_witness :
  executeToolCall noUpper (js "postgres") (js "delete_db") CRITICAL testCaller
    (Return (JsString (js "dropped"))) None None mockWorld
  = evaluateToolCall noUpper (js "postgres") (js "delete_db") CRITICAL testCaller
      None None mockWorld.
Proof.
  apply (executeToolCall_not_allowed noUpper mockWorld (js "postgres")
           (js "delete_db") CRITICAL testCaller (Return (JsString (js "dropped")))
           None None).
  vm_compute. discriminate.
Defined.

(** X19.  The audit trail comes first.  When the sink rejects the tool-call
    notification, [evaluateToolCall] throws the error of the sink, and so
    does [executeToolCall]: no approval is registered (also for a Review
    decision) and the executor is not invoked. *)
Theorem toolCall_audit_failure {S : Type} `{IAuditLogger S}
  (unicodeUpper : N -> N) (w : World S) (tool action : jsstring)
  (severity : OperationSeverity) (caller : CallerIdentity) (executor : Executor)
  (args metadata : option JsValue) (e : Thrown) :
  let context := contextIn w tool action severity caller args metadata in
  let decision := decisionIn unicodeUpper w context in
  (logToolCall context decision (auditLogger w)).1 = Throw e ->
  evaluateToolCall unicodeUpper tool action severity caller args metadata w
    = (Throw e, loggedWorld unicodeUpper w context)
  /\ executeToolCall unicodeUpper tool action severity caller executor args
       metadata w
     = (Throw e, loggedWorld unicodeUpper w context)
  /\ approvalManager (loggedWorld unicodeUpper w context) = approvalManager w
  /\ count isInvocation (journal (loggedWorld unicodeUpper w context))
     = count isInvocation (journal w).
Proof.
  intros context decision Hlog.
  assert (evaluateToolCall unicodeUpper tool action severity caller args metadata w
          = (Throw e, loggedWorld unicodeUpper w context)) as He.
  { rewrite evaluateToolCall_steps. fold context decision. now rewrite Hlog. }
  split; [exact He|]. split.
  - unfold executeToolCall, bind. now rewrite He.
  - split; [reflexivity|]. simpl. rewrite count_app. unfold count. simpl. lia.
Qed.

Lemma toolCall_audit_failure_witness :
  let w := newGateway createDefaultPolicy {| room := 1 |} (Some 60000%Z) tokens 1000 in
  let context := contextIn w (js "jira") (js "add_comment") MEDIUM testCaller
                   None None in
  executeToolCall noUpper (js "jira") (js "add_comment") MEDIUM testCaller
    (Return (JsString (js "done"))) None None w
  = (Throw (ThrownError (js "ENOSPC: no space left on device, open")),
     loggedWorld noUpper w context)
  /\ approvalManager (loggedWorld noUpper w context) = approvalManager w.
Proof.
  intros w context.
  destruct (@toolCall_audit_failure FileLog AuditLogger noUpper w
              (js "jira") (js "add_comment")
              MEDIUM testCaller (Return (JsString (js "done"))) None None
              (ThrownError (js "ENOSPC: no space left on device, open"))
              eq_refl) as (_ & Hexec & Hstore & _).
  split; [exact Hexec|exact Hstore].
Defined.

Section OrchestratorReview.

Variable unicodeUpper : N -> N.
Context {S : Type} `{IAuditLogger S}.

Lemma evaluateToolCall_review_steps (w : World S) tool action severity caller
  args metadata (token : jsstring) :
  let context := contextIn w tool action severity caller args metadata in
  let decision := decisionIn unicodeUpper w context in
  dec_effect decision = REVIEW ->
  dec_approvalToken decision = Some token -> token <> [] ->
  (logToolCall context decision (auditLogger w)).1 = Return tt ->
  evaluateToolCall unicodeUpper tool action severity caller args metadata w
  = (Return {| allowed := false; gr_decision := decision;
               gr_approvalToken := Some token; gr_context := context;
               gr_result := None |},
     withManager (loggedWorld unicodeUpper w context)
       (createApproval (approvalManager w) context decision None (clock w)).2)
  /\ getApproval
       (createApproval (approvalManager w) context decision None (clock w)).2 token
     = Some (reviewRecord w context decision token)
  /\ heap (createApproval (approvalManager w) context decision None (clock w)).2
       !! length (heap (approvalManager w))
     = Some (reviewRecord w context decision token)
  /\ pendingApprovals
       (createApproval (approvalManager w) context decision None (clock w)).2
       !! token = Some (length (heap (approvalManager w))).
Proof.
  intros context decision Heff Htok Hne Hlog.
  destruct token as [|c t]; [congruence|].
  pose proof (createApproval_truthy (approvalManager w) context decision None
                (clock w) c t Htok) as Hc.
  assert (effectiveTTL (approvalManager w) None = defaultTTL (approvalManager w))
    as Httl by reflexivity.
  assert (heap (createApproval (approvalManager w) context decision None (clock w)).2
            !! length (heap (approvalManager w))
          = Some (reviewRecord w context decision (c :: t))) as Hheap.
  { rewrite Hc. simpl. rewrite lookup_app_r by lia. rewrite Nat.sub_diag.
    now rewrite Httl. }
  assert (pendingApprovals
            (createApproval (approvalManager w) context decision None (clock w)).2
            !! (c :: t) = Some (length (heap (approvalManager w)))) as Hmap.
  { rewrite Hc. simpl. apply lookup_insert_eq. }
  split; [|split; [|split; [exact Hheap|exact Hmap]]].
  - rewrite evaluateToolCall_steps. fold context decision. rewrite Hlog, Heff.
    unfold bind, approvalManager_createApproval, deref, ret, withParts,
      withManager.
    cbn [approvalManager loggedWorld clock].
    rewrite Hc in *. cbn [fst snd heap approvalManager] in *.
    rewrite Hheap. reflexivity.
  - unfold getApproval. rewrite Hc in *. cbn [snd pendingApprovals heap] in *.
    rewrite lookup_insert_eq. cbn [mbind option_bind]. exact Hheap.
Qed.

End OrchestratorReview.

(** X20.  A Review decision registers the approval.  When the decision is
    Review, carries a non-empty token, and the sink accepts the tool-call
    notification, [evaluateToolCall] returns [allowed = false] together with
    that token, and the store then holds under the token a pending record
    with the context and the decision of the call, created at the clock
    reading and expiring after the default TTL of the store. *)
Theorem evaluateToolCall_registers_review {S : Type} `{IAuditLogger S}
  (unicodeUpper : N -> N) (w : World S) (tool action : jsstring)
  (severity : OperationSeverity) (caller : CallerIdentity)
  (args metadata : option JsValue) (token : jsstring) :
  let context := contextIn w tool action severity caller args metadata in
  let decision := decisionIn unicodeUpper w context in
  dec_effect decision = REVIEW ->
  dec_approvalToken decision = Some token -> token <> [] ->
  (logToolCall context decision (auditLogger w)).1 = Return tt ->
  exists w',
    evaluateToolCall unicodeUpper tool action severity caller args metadata w
    = (Return {| allowed := false; gr_decision := decision;
                 gr_approvalToken := Some token; gr_context := context;
                 gr_result := None |}, w')
    /\ getApproval (approvalManager w') token
       = Some (reviewRecord w context decision token)
    /\ journal w' = journal w ++ [Notified (NToolCall context decision)].
Proof.
  intros context decision Heff Htok Hne Hlog.
  destruct (evaluateToolCall_review_steps unicodeUpper w tool action severity
              caller args metadata token Heff Htok Hne Hlog) as (He & Hget & _).
  eexists. split; [exact He|]. split; [exact Hget|reflexivity].
Qed.

Lemma evaluateToolCall_registers_review_witness :
  exists w',
    evaluateToolCall noUpper (js "jira") (js "add_comment") MEDIUM testCaller
      None None mockWorld
    = (Return {| allowed := false;
                 gr_decision :=
                   decisionIn noUpper mockWorld
                     (contextIn mockWorld (js "jira") (js "add_comment") MEDIUM
                        testCaller None None);
                 gr_approvalToken := Some (js "token-1");
                 gr_context :=
                   contextIn mockWorld (js "jira") (js "add_comment") MEDIUM
                     testCaller None None;
                 gr_result := None |}, w')
    /\ getApproval (approvalManager w') (js "token-1")
       = Some (reviewRecord mockWorld
                 (contextIn mockWorld (js "jira") (js "add_comment") MEDIUM
                    testCaller None None)
                 (decisionIn noUpper mockWorld
                    (contextIn mockWorld (js "jira") (js "add_comment") MEDIUM
                       testCaller None None))
                 (js "token-1"))
    /\ journal w'
       = journal mockWorld ++
         [Notified (NToolCall
            (contextIn mockWorld (js "jira") (js "add_comment") MEDIUM
               testCaller None None)
            (decisionIn noUpper mockWorld
               (contextIn mockWorld (js "jira") (js "add_comment") MEDIUM
                  testCaller None None)))].
Proof.
  apply (@evaluateToolCall_registers_review (list Notification) MockAuditLogger
           noUpper mockWorld (js "jira") (js "add_comment") MEDIUM testCaller
           None None (js "token-1"));
    [reflexivity | reflexivity | discriminate | reflexivity].
Defined.

Lemma grantApproval_failure_shape m (token : jsstring) approver now :
  res_success (grantApproval m token approver now).1 = false ->
  exists msg,
    (grantApproval m token approver now).1 = failure msg /\ msg <> []
    /\ (msg = js "Approval token not found"
        \/ msg = js "Approval token has expired"
        \/ exists s, s <> pending /\ msg = js "Approval is already " ++ statusString s).
Proof.
  unfold grantApproval.
  destruct (pendingApprovals m !! token) as [l|];
    [|intros _; eexists; split; [reflexivity|split; [discriminate|auto]]].
  destruct (heap m !! l) as [a|];
    [|intros _; eexists; split; [reflexivity|split; [discriminate|auto]]].
  case_bool_decide as Hp; simpl.
  - destruct (match pa_expiresAt a with
              | Some expiresAt => dateLt expiresAt (ValidDate now)
              | None => false
              end); simpl; [|discriminate].
    intros _. eexists. split; [reflexivity|split; [discriminate|auto]].
  - intros _. eexists. split; [reflexivity|]. split; [discriminate|].
    right. right. eauto.
Qed.


(** X21.  A refused grant.  Whenever [grantApproval] does not succeed
    (unknown token, record already decided, or record found expired),
    [grantApprovalAndExecute] throws an error whose message is the message
    of the store, as it is; the executor is not invoked and the sink is not
    notified.  The store is left as [grantApproval] left it. *)
Theorem grantApprovalAndExecute_refused {S : Type} `{IAuditLogger S}
  (w : World S) (token : jsstring) (approver : CallerIdentity)
  (executor : Executor) :
  res_success (grantApproval (approvalManager w) token approver (clock w)).1
    = false ->
  exists msg,
    res_error (grantApproval (approvalManager w) token approver (clock w)).1
      = Some msg
    /\ grantApprovalAndExecute token approver executor w
       = (Throw (ThrownError msg),
          withManager w
            (grantApproval (approvalManager w) token approver (clock w)).2)
    /\ (msg = js "Approval token not found"
        \/ msg = js "Approval token has expired"
        \/ exists s, s <> pending
                     /\ msg = js "Approval is already " ++ statusString s).
Proof.
  intros Hfail.
  destruct (grantApproval_failure_shape _ _ _ _ Hfail) as (msg & Hres & Hne & Hmsg).
  exists msg. rewrite Hres. split; [reflexivity|]. split; [|exact Hmsg].
  unfold grantApprovalAndExecute, bind, approvalManager_grantApproval, throw,
    withParts, withManager.
  destruct (grantApproval (approvalManager w) token approver (clock w))
    as [r m] eqn:Eg.
  simpl in Hres. subst r. simpl. destruct msg; [congruence|reflexivity].
Qed.

Lemma grantApprovalAndExecute_refused_witness :
  exists msg,
    res_error (grantApproval (approvalManager (withManager mockWorld grantedManager))
                 (js "test-token-001") testApprover 1000).1 = Some msg
    /\ grantApprovalAndExecute (js "test-token-001") testApprover
         (Return (JsString (js "done"))) (withManager mockWorld grantedManager)
       = (Throw (ThrownError msg),
          withManager (withManager mockWorld grantedManager)
            (grantApproval (approvalManager (withManager mockWorld grantedManager))
               (js "test-token-001") testApprover 1000).2)
    /\ (msg = js "Approval token not found"
        \/ msg = js "Approval token has expired"
        \/ exists s, s <> pending
                     /\ msg = js "Approval is already " ++ statusString s).
Proof.
  apply (@grantApprovalAndExecute_refused (list Notification) MockAuditLogger
           (withManager mockWorld grantedManager) (js "test-token-001")
           testApprover (Return (JsString (js "done")))).
  reflexivity.
Defined.

(** X22.  The executor succeeds.  When the decision is Allow, the executor
    resolves with [output], and the sink accepts the tool-call and the
    execution-success notifications, [executeToolCall] returns
    [allowed = true] with [result = {success: true, output}]; the executor
    is invoked once and no execution failure is notified. *)
Theorem executeToolCall_executor_success {S : Type} `{IAuditLogger S}
  (unicodeUpper : N -> N) (w : World S) (tool action : jsstring)
  (severity : OperationSeverity) (caller : CallerIdentity) (output : JsValue)
  (args metadata : option JsValue) :
  let context := contextIn w tool action severity caller args metadata in
  let decision := decisionIn unicodeUpper w context in
  dec_effect decision = ALLOW ->
  (logToolCall context decision (auditLogger w)).1 = Return tt ->
  (logExecutionSuccess context output
     (logToolCall context decision (auditLogger w)).2).1 = Return tt ->
  exists w',
    executeToolCall unicodeUpper tool action severity caller (Return output)
      args metadata w
    = (Return {| allowed := true; gr_decision := decision;
                 gr_approvalToken := None; gr_context := context;
                 gr_result :=
                   Some {| er_success := true; er_output := Some output;
                           er_error := None |} |}, w')
    /\ journal w'
       = journal w ++ [Notified (NToolCall context decision); ExecutorInvoked;
                       Notified (NExecutionSuccess context output)]
    /\ approvalManager w' = approvalManager w.
Proof.
  intros context decision Heff Hlog Hok.
  unfold executeToolCall, bind.
  rewrite (evaluateToolCall_allow unicodeUpper w tool action severity caller
             args metadata Heff Hlog).
  fold context decision. simpl.
  unfold tryCatch, bind, invoke, callSink, withParts, ret, withResult. simpl.
  destruct (logExecutionSuccess context output
              (logToolCall context decision (auditLogger w)).2) as [c logger] eqn:El.
  simpl in Hok. subst c.
  eexists. split; [reflexivity|]. simpl.
  rewrite <- !app_assoc. simpl. split; reflexivity.
Qed.

Lemma executeToolCall_executor_success_witness :
  exists w',
    executeToolCall noUpper (js "jira") (js "search_issues") SAFE testCaller
      (Return (JsString (js "3 issues"))) None None mockWorld
    = (Return {| allowed := true;
                 gr_decision :=
                   decisionIn noUpper mockWorld
                     (contextIn mockWorld (js "jira") (js "search_issues") SAFE
                        testCaller None None);
                 gr_approvalToken := None;
                 gr_context :=
                   contextIn mockWorld (js "jira") (js "search_issues") SAFE
                     testCaller None None;
                 gr_result :=
                   Some {| er_success := true;
                           er_output := Some (JsString (js "3 issues"));
                           er_error := None |} |}, w')
    /\ journal w'
       = journal mockWorld ++
         [Notified (NToolCall
            (contextIn mockWorld (js "jira") (js "search_issues") SAFE
               testCaller None None)
            (decisionIn noUpper mockWorld
               (contextIn mockWorld (js "jira") (js "search_issues") SAFE
                  testCaller None None)));
          ExecutorInvoked;
          Notified (NExecutionSuccess
            (contextIn mockWorld (js "jira") (js "search_issues") SAFE
               testCaller None None) (JsString (js "3 issues")))]
    /\ approvalManager w' = approvalManager mockWorld.
Proof.
  apply (@executeToolCall_executor_success (list Notification) MockAuditLogger
           noUpper mockWorld (js "jira") (js "search_issues") SAFE testCaller
           (JsString (js "3 issues")) None None);
    reflexivity.
Defined.

(** X23.  A success that is reported as a failure.  The notification of
    the success is awaited inside the [try] block: when the decision is
    Allow and the executor resolves, but the sink rejects the
    execution-success notification with error [e] (and then accepts the
    execution-failure notification), [executeToolCall] returns
    [result = {success: false, error: <message of e>}] although the executor
    ran, once, to completion. *)
Theorem executeToolCall_success_log_rejected {S : Type} `{IAuditLogger S}
  (unicodeUpper : N -> N) (w : World S) (tool action : jsstring)
  (severity : OperationSeverity) (caller : CallerIdentity) (output : JsValue)
  (args metadata : option JsValue) (e : Thrown) :
  let context := contextIn w tool action severity caller args metadata in
  let decision := decisionIn unicodeUpper w context in
  let afterCall := (logToolCall context decision (auditLogger w)).2 in
  dec_effect decision = ALLOW ->
  (logToolCall context decision (auditLogger w)).1 = Return tt ->
  (logExecutionSuccess context output afterCall).1 = Throw e ->
  (logExecutionFailure context (errorMessageOf e)
     (logExecutionSuccess context output afterCall).2).1 = Return tt ->
  exists w',
    executeToolCall unicodeUpper tool action severity caller (Return output)
      args metadata w
    = (Return {| allowed := true; gr_decision := decision;
                 gr_approvalToken := None; gr_context := context;
                 gr_result :=
                   Some {| er_success := false; er_output := None;
                           er_error := Some (errorMessageOf e) |} |}, w')
    /\ journal w'
       = journal w ++ [Notified (NToolCall context decision); ExecutorInvoked;
                       Notified (NExecutionSuccess context output);
                       Notified (NExecutionFailure context (errorMessageOf e))].
Proof.
  intros context decision afterCall Heff Hlog Hrej Hok. subst afterCall.
  unfold executeToolCall, bind.
  rewrite (evaluateToolCall_allow unicodeUpper w tool action severity caller
             args metadata Heff Hlog).
  fold context decision. simpl.
  unfold tryCatch, bind, invoke, callSink, withParts, ret, withResult. simpl.
  destruct (logExecutionSuccess context output
              (logToolCall context decision (auditLogger w)).2) as [c logger] eqn:El.
  simpl in Hrej, Hok. subst c. simpl.
  destruct (logExecutionFailure context (errorMessageOf e) logger)
    as [c' logger'] eqn:Ef.
  simpl in Hok. subst c'.
  eexists. split; [reflexivity|]. simpl.
  rewrite <- !app_assoc. reflexivity.
Qed.

Lemma executeToolCall_success_log_rejected_witness :
  exists w',
    executeToolCall noUpper (js "jira") (js "search_issues") SAFE testCaller
      (Return (JsString (js "3 issues"))) None None pickyWorld
    = (Return {| allowed := true;
                 gr_decision :=
                   decisionIn noUpper pickyWorld
                     (contextIn pickyWorld (js "jira") (js "search_issues") SAFE
                        testCaller None None);
                 gr_approvalToken := None;
                 gr_context :=
                   contextIn pickyWorld (js "jira") (js "search_issues") SAFE
                     testCaller None None;
                 gr_result :=
                   Some {| er_success := false; er_output := None;
                           er_error := Some (js "cannot serialize output") |} |},
       w')
    /\ journal w'
       = journal pickyWorld ++
         [Notified (NToolCall
            (contextIn pickyWorld (js "jira") (js "search_issues") SAFE
               testCaller None None)
            (decisionIn noUpper pickyWorld
               (contextIn pickyWorld (js "jira") (js "search_issues") SAFE
                  testCaller None None)));
          ExecutorInvoked;
          Notified (NExecutionSuccess
            (contextIn pickyWorld (js "jira") (js "search_issues") SAFE
               testCaller None None) (JsString (js "3 issues")));
          Notified (NExecutionFailure
            (contextIn pickyWorld (js "jira") (js "search_issues") SAFE
               testCaller None None) (js "cannot serialize output"))].
Proof.
  apply (@executeToolCall_success_log_rejected PickyLog PickyAuditLogger
           noUpper pickyWorld (js "jira") (js "search_issues") SAFE testCaller
           (JsString (js "3 issues")) None None
           (ThrownError (js "cannot serialize output")));
    reflexivity.
Defined.

Section OrchestratorGrant.

Context {S : Type} `{IAuditLogger S}.

(** [grantApprovalAndExecute] once the store has granted. *)
Lemma grantApprovalAndExecute_granted (w : World S) (token : jsstring)
  (l : ref) (a : PendingApproval) (approver : CallerIdentity)
  (executor : Executor) :
  pendingApprovals (approvalManager w) !! token = Some l ->
  heap (approvalManager w) !! l = Some a ->
  pa_status a = pending -> unexpiredAt a (clock w) ->
  grantApprovalAndExecute token approver executor w
  = bind (callSink (NApprovalGranted (pa_context a) approver))
      (fun _ =>
         tryCatch
           (bind (invoke executor)
              (fun output =>
                 bind (callSink (NExecutionSuccess (pa_context a) output))
                   (fun _ =>
                      ret {| allowed := true; gr_decision := pa_decision a;
                             gr_approvalToken := None;
                             gr_context := pa_context a;
                             gr_result :=
                               Some {| er_success := true;
                                       er_output := Some output;
                                       er_error := None |} |})))
           (fun error =>
              bind (callSink (NExecutionFailure (pa_context a)
                                (errorMessageOf error)))
                (fun _ =>
                   ret {| allowed := true; gr_decision := pa_decision a;
                          gr_approvalToken := None;
                          gr_context := pa_context a;
                          gr_result :=
                            Some {| er_success := false; er_output := None;
                                    er_error := Some (errorMessageOf error) |} |})))
      (withManager w (setStatus (approvalManager w) l approved)).
Proof.
  intros Ht Ha Hs Hu.
  unfold grantApprovalAndExecute, bind at 1, approvalManager_grantApproval.
  rewrite (grantApproval_pending_unexpired _ token l a approver (clock w)
             Ht Ha Hs Hu).
  cbn [succeeded res_success res_approval].
  unfold bind at 1, deref, withParts. cbn [approvalManager].
  rewrite (heap_setStatus_eq _ l a approved Ha).
  reflexivity.
Qed.

End OrchestratorGrant.





(** X25.  An approval can be used up without the call being run.  The
    record is set to approved before the grant is notified: when the sink
    rejects the approval-granted notification, [grantApprovalAndExecute]
    throws the error of the sink without invoking the executor, the record
    stays approved, and a second attempt fails with "Approval is already
    approved". *)
Theorem grantApprovalAndExecute_consumed {S : Type} `{IAuditLogger S}
  (w : World S) (token : jsstring) (l : ref) (a : PendingApproval)
  (approver again : CallerIdentity) (executor retry : Executor) (e : Thrown) :
  pendingApprovals (approvalManager w) !! token = Some l ->
  heap (approvalManager w) !! l = Some a ->
  pa_status a = pending -> unexpiredAt a (clock w) ->
  (logApprovalGranted (pa_context a) approver (auditLogger w)).1 = Throw e ->
  exists w',
    grantApprovalAndExecute token approver executor w = (Throw e, w')
    /\ getApproval (approvalManager w') token = Some (withStatus a approved)
    /\ count isInvocation (journal w') = count isInvocation (journal w)
    /\ (grantApprovalAndExecute token again retry w').1
       = Throw (ThrownError (js "Approval is already approved")).
Proof.
  intros Ht Ha Hs Hu Hrej.
  rewrite (grantApprovalAndExecute_granted w token l a approver executor
             Ht Ha Hs Hu).
  pose proof (getApproval_setStatus _ token l a approved Ht Ha) as Hget.
  unfold bind at 1, callSink at 1, withParts, withManager.
  cbn [auditLogger approvalManager entropy journal policy clock].
  destruct (logApprovalGranted (pa_context a) approver (auditLogger w))
    as [c s1]. simpl in Hrej. subst c.
  eexists. split; [reflexivity|]. cbn [approvalManager journal].
  split; [exact Hget|]. split.
  - rewrite count_app. unfold count. simpl. lia.
  - unfold grantApprovalAndExecute, bind, approvalManager_grantApproval.
    cbn [approvalManager clock].
    rewrite (grantApproval_decided _ token l (withStatus a approved) again
               (clock w));
      [reflexivity | now rewrite pendingApprovals_setStatus
       | now apply heap_setStatus_eq | discriminate].
Qed.

Lemma grantApprovalAndExecute_consumed_witness :
  exists w',
    grantApprovalAndExecute (js "test-token-001") testApprover
      (Return (JsString (js "done"))) pickyWorldPending
    = (Throw (ThrownError (js "audit store is read-only")), w')
    /\ getApproval (approvalManager w') (js "test-token-001")
       = Some (withStatus pendingRecord approved)
    /\ count isInvocation (journal w') = count isInvocation (journal pickyWorldPending)
    /\ (grantApprovalAndExecute (js "test-token-001") testApprover
          (Return (JsString (js "done"))) w').1
       = Throw (ThrownError (js "Approval is already approved")).
Proof.
  apply (@grantApprovalAndExecute_consumed PickyLog PickyAuditLogger
           pickyWorldPending (js "test-token-001") 0%nat pendingRecord
           testApprover testApprover (Return (JsString (js "done")))
           (Return (JsString (js "done")))
           (ThrownError (js "audit store is read-only")));
    reflexivity.
Defined.








(** ** Redaction and log lines (validation.ts) *)

Section RedactionFacts.

Variable toLowerCase : jsstring -> jsstring.
Variable redactValue : jsstring.

Lemma redact_field value :
  match value with
  | JsArray _ | JsObject _ =>
    redactSensitiveFields toLowerCase redactValue value
  | _ => value
  end = redactSensitiveFields toLowerCase redactValue value.
Proof. now destruct value. Qed.

Lemma redact_object fields :
  redactSensitiveFields toLowerCase redactValue (JsObject fields)
  = JsObject (flat_map (redactEntry toLowerCase redactValue) fields).
Proof.
  simpl. f_equal. induction fields as [|[key value] fs IH]; [reflexivity|].
  cbn [flat_map]. unfold redactEntry at 1. cbn [fst snd].
  destruct (isProtoKey key); cbn [app]; [exact IH|].
  rewrite IH. f_equal. f_equal. destruct (isSensitive toLowerCase key);
    [reflexivity|apply redact_field].
Qed.

Lemma leaks_object fields :
  leaks toLowerCase redactValue (JsObject fields)
  = existsb (entryLeaks toLowerCase redactValue) fields.
Proof.
  simpl. induction fields as [|[key value] fs IH]; [reflexivity|].
  cbn [existsb]. unfold entryLeaks at 1. cbn [fst snd]. now rewrite IH.
Qed.

Lemma redactEntry_no_leak kv :
  leaks toLowerCase redactValue
    (redactSensitiveFields toLowerCase redactValue kv.2) = false ->
  existsb (entryLeaks toLowerCase redactValue)
    (redactEntry toLowerCase redactValue kv) = false.
Proof.
  intros Hx. unfold redactEntry. destruct (isProtoKey kv.1); [reflexivity|].
  cbn [existsb]. rewrite orb_false_r. unfold entryLeaks. cbn [fst snd].
  destruct (isSensitive toLowerCase kv.1).
  - now rewrite bool_decide_eq_true_2.
  - exact Hx.
Qed.

Lemma redactEntry_idempotent kv :
  redactSensitiveFields toLowerCase redactValue
    (redactSensitiveFields toLowerCase redactValue kv.2)
  = redactSensitiveFields toLowerCase redactValue kv.2 ->
  flat_map (redactEntry toLowerCase redactValue)
    (redactEntry toLowerCase redactValue kv)
  = redactEntry toLowerCase redactValue kv.
Proof.
  intros Hx. unfold redactEntry.
  destruct (isProtoKey kv.1) eqn:Ep; [reflexivity|].
  cbn [flat_map fst snd]. rewrite Ep, app_nil_r.
  destruct (isSensitive toLowerCase kv.1); [reflexivity|].
  now rewrite Hx.
Qed.

Lemma redact_no_leak v :
  leaks toLowerCase redactValue
    (redactSensitiveFields toLowerCase redactValue v) = false.
Proof.
  induction v using JsValue_induction; try reflexivity.
  - simpl. induction H as [|x items Hx _ IH]; [reflexivity|].
    simpl. now rewrite Hx, IH.
  - rewrite redact_object, leaks_object.
    induction H as [|kv fs Hx _ IH]; [reflexivity|].
    cbn [flat_map]. rewrite existsb_app, IH, orb_false_r.
    now apply redactEntry_no_leak.
Qed.

Lemma redact_idempotent v :
  redactSensitiveFields toLowerCase redactValue
    (redactSensitiveFields toLowerCase redactValue v)
  = redactSensitiveFields toLowerCase redactValue v.
Proof.
  induction v using JsValue_induction; try reflexivity.
  - simpl. f_equal. rewrite map_map.
    induction H as [|x items Hx _ IH]; [reflexivity|].
    simpl. now rewrite Hx, IH.
  - rewrite !redact_object. f_equal.
    induction H as [|kv fs Hx _ IH]; [reflexivity|].
    cbn [flat_map]. rewrite flat_map_app, IH. f_equal.
    now apply redactEntry_idempotent.
Qed.

Lemma redact_keys fields :
  (flat_map (redactEntry toLowerCase redactValue) fields).*1
  = filter (fun key => isProtoKey key = false) fields.*1.
Proof.
  induction fields as [|[key value] fs IH]; [reflexivity|].
  cbn [flat_map fmap list_fmap]. rewrite fmap_app, IH.
  unfold redactEntry. cbn [fst snd]. rewrite filter_cons.
  destruct (isProtoKey key); cbn [fmap list_fmap app fst].
  - rewrite decide_False by discriminate. reflexivity.
  - rewrite decide_True by reflexivity. reflexivity.
Qed.

End RedactionFacts.

(** X29.  Redaction is deep and stable.  In the result of
    [redactSensitiveFields], no key whose lower-case form contains one of
    the sensitive names holds anything but the redaction string, at any
    depth of objects and arrays.  Redacting twice is redacting once, and an
    object keeps its keys in their order, except [__proto__]. *)
Theorem redactSensitiveFields_deep (toLowerCase : jsstring -> jsstring)
  (redactValue : jsstring) (obj : JsValue) :
  leaks toLowerCase redactValue
    (redactSensitiveFields toLowerCase redactValue obj) = false
  /\ redactSensitiveFields toLowerCase redactValue
       (redactSensitiveFields toLowerCase redactValue obj)
     = redactSensitiveFields toLowerCase redactValue obj
  /\ (forall fields,
        obj = JsObject fields ->
        exists fields',
          redactSensitiveFields toLowerCase redactValue obj = JsObject fields'
          /\ fields'.*1 = filter (fun key => isProtoKey key = false) fields.*1).
Proof.
  split; [apply redact_no_leak|]. split; [apply redact_idempotent|].
  intros fields ->. rewrite redact_object. eexists. split; [reflexivity|].
  apply redact_keys.
Qed.

Lemma redactSensitiveFields_deep_witness :
  redactSensitiveFields asciiLower (js "[REDACTED]") secretArgs
  = JsObject [(js "issueKey", JsString (js "OPS-1"));
              (js "auth", JsString (js "[REDACTED]"));
              (js "apiToken", JsString (js "[REDACTED]"))]
  /\ exists fields',
       redactSensitiveFields asciiLower (js "[REDACTED]") secretArgs
       = JsObject fields'
       /\ fields'.*1 = [js "issueKey"; js "auth"; js "apiToken"].
Proof.
  split; [vm_compute; reflexivity|].
  destruct (redactSensitiveFields_deep asciiLower (js "[REDACTED]") secretArgs)
    as (_ & _ & Hkeys).
  destruct (Hkeys _ eq_refl) as (fields' & Hred & Hk).
  exists fields'. split; [exact Hred|]. rewrite Hk. vm_compute. reflexivity.
Defined.

Lemma replaceAllChar_app c r a b :
  replaceAllChar c r (a ++ b) = replaceAllChar c r a ++ replaceAllChar c r b.
Proof. apply flat_map_app. Qed.

Lemma sanitizeForLog_app a b :
  sanitizeForLog (a ++ b) = sanitizeForLog a ++ sanitizeForLog b.
Proof. unfold sanitizeForLog. now rewrite !replaceAllChar_app. Qed.

Lemma sanitizeForLog_char c : sanitizeForLog [c] = sanitizeChar c.
Proof.
  unfold sanitizeForLog, sanitizeChar, replaceAllChar. cbn [flat_map app].
  destruct (N.eqb_spec c 13) as [->|H13]; [reflexivity|].
  cbn [flat_map app].
  destruct (N.eqb_spec c 10) as [->|H10]; [reflexivity|].
  cbn [flat_map app].
  destruct (N.eqb_spec c 9) as [->|H9]; [reflexivity|].
  cbn [flat_map app].
  destruct (N.eqb_spec c 0) as [->|H0]; reflexivity.
Qed.

Lemma sanitizeForLog_flat_map value :
  sanitizeForLog value = flat_map sanitizeChar value.
Proof.
  induction value as [|c v IH]; [reflexivity|].
  change (c :: v) with ([c] ++ v).
  rewrite sanitizeForLog_app, sanitizeForLog_char, IH. reflexivity.
Qed.

Lemma sanitizeChar_clean c :
  forallb (fun x => negb (isLogControl x)) (sanitizeChar c) = true.
Proof.
  unfold sanitizeChar, isLogControl.
  destruct (N.eqb_spec c 13); [reflexivity|].
  destruct (N.eqb_spec c 10); [reflexivity|].
  destruct (N.eqb_spec c 9); [reflexivity|].
  destruct (N.eqb_spec c 0); [reflexivity|].
  cbn [forallb]. rewrite andb_true_r.
  destruct (N.eqb_spec c 0); [contradiction|].
  destruct (N.eqb_spec c 9); [contradiction|].
  destruct (N.eqb_spec c 10); [contradiction|].
  destruct (N.eqb_spec c 13); [contradiction|]. reflexivity.
Qed.

Lemma sanitizeChar_id c : isLogControl c = false -> sanitizeChar c = [c].
Proof.
  unfold sanitizeChar, isLogControl. intros H.
  apply orb_false_elim in H as [H H13].
  apply orb_false_elim in H as [H H10].
  apply orb_false_elim in H as [H0 H9].
  now rewrite H13, H10, H9, H0.
Qed.

Lemma sanitizeForLog_output_clean value :
  forallb (fun x => negb (isLogControl x)) (sanitizeForLog value) = true.
Proof.
  rewrite sanitizeForLog_flat_map.
  induction value as [|c v IH]; [reflexivity|].
  cbn [flat_map]. now rewrite forallb_app, sanitizeChar_clean, IH.
Qed.

Lemma sanitizeForLog_clean_id value :
  forallb (fun x => negb (isLogControl x)) value = true ->
  sanitizeForLog value = value.
Proof.
  rewrite sanitizeForLog_flat_map.
  induction value as [|c v IH]; [reflexivity|].
  cbn [forallb flat_map]. intros [Hc Hv]%andb_prop.
  apply negb_true_iff in Hc. now rewrite sanitizeChar_id, IH.
Qed.

(** X30.  [sanitizeForLog] leaves no NUL, TAB, LF or CR in a log text; it
    works character by character, changes nothing in a text without these
    four characters, and thus changes nothing when applied again.  The
    backslash itself is not escaped: a line feed and the two characters
    backslash, n give the same log text. *)
Theorem sanitizeForLog_spec (value : jsstring) :
  forallb (fun x => negb (isLogControl x)) (sanitizeForLog value) = true
  /\ sanitizeForLog (sanitizeForLog value) = sanitizeForLog value
  /\ (forallb (fun x => negb (isLogControl x)) value = true ->
      sanitizeForLog value = value)
  /\ (forall before after,
        value = before ++ [10] ++ after ->
        sanitizeForLog value = sanitizeForLog (before ++ [92; 110] ++ after)).
Proof.
  split; [apply sanitizeForLog_output_clean|].
  split; [apply sanitizeForLog_clean_id, sanitizeForLog_output_clean|].
  split; [apply sanitizeForLog_clean_id|].
  intros before after ->. rewrite !sanitizeForLog_app. reflexivity.
Qed.

Lemma sanitizeForLog_spec_witness :
  sanitizeForLog (js "jira create_issue") = js "jira create_issue"
  /\ sanitizeForLog (js "ok" ++ [10] ++ js "level=info")
     = sanitizeForLog (js "ok" ++ [92; 110] ++ js "level=info").
Proof.
  split.
  - apply (sanitizeForLog_spec (js "jira create_issue")). reflexivity.
  - apply (sanitizeForLog_spec (js "ok" ++ [10] ++ js "level=info")).
    reflexivity.
Defined.
